(** * Banking-deposits dashboard: data access layer and derived statistics

    A shallow embedding of the Streamlit dashboard's computational core:
    [utils/data_loader.py], the aggregate helpers of
    [utils/visualizations.py], and the computations embedded in the
    Predictions, Geographic, EDA, Insights and Models pages.

    Modelling conventions.
    - A pandas [DataFrame] is a list of rows in index order; every row
      carries its index label ([row_id]), which boolean-mask selection keeps.
    - Numeric cells are exact rationals ([Q]): the cleaned CSV holds no
      nulls, and float64 rounding is outside the model.  Results of
      divisions and means live in [num], which adds the IEEE specials
      that numpy produces instead of raising (x/0 = inf, 0/0 = nan).
    - A page or loader is a [Script]: the list of effects it emits (UI calls,
      divisions) and how it ends (value, exception, [st.stop()]).  A script
      runs against one state of the artifact store; the memoisation added by
      [st.cache_data] does not change what a run computes and is left out. *)

From Stdlib Require Import QArith Qround Qabs Reals Qreals Lra Lia.
From Stdlib Require Import Qminmax Permutation Sorted.
From stdpp Require Import base list sorting strings gmap.

Open Scope string_scope.
Open Scope list_scope.

(** ** Numbers *)

(** Value of a float64 computation, up to rounding. *)
Inductive num : Type :=
  | Fin (q : Q)
  | PInf
  | NInf
  | NaN.

(** Same value: rationals up to [Qeq], specials by constructor. *)
Definition num_eq (x y : num) : Prop :=
  match x, y with
  | Fin a, Fin b => (a == b)%Q
  | PInf, PInf | NInf, NInf | NaN, NaN => True
  | _, _ => False
  end.

Definition is_finite (x : num) : bool :=
  match x with Fin _ => true | _ => false end.

(** Infinity carrying the sign of [a] times [s]; nan when [a] is zero. *)
Definition signed_inf (s : comparison) (a : Q) : num :=
  match (a ?= 0)%Q, s with
  | Eq, _ | _, Eq => NaN
  | Gt, Gt | Lt, Lt => PInf
  | Gt, Lt | Lt, Gt => NInf
  end.

Definition nneg (x : num) : num :=
  match x with
  | Fin a => Fin (- a)
  | PInf => NInf
  | NInf => PInf
  | NaN => NaN
  end.

Definition nadd (x y : num) : num :=
  match x, y with
  | NaN, _ | _, NaN => NaN
  | Fin a, Fin b => Fin (a + b)
  | PInf, NInf | NInf, PInf => NaN
  | PInf, _ | _, PInf => PInf
  | NInf, _ | _, NInf => NInf
  end.

Definition nmul (x y : num) : num :=
  match x, y with
  | NaN, _ | _, NaN => NaN
  | Fin a, Fin b => Fin (a * b)
  | Fin a, PInf | PInf, Fin a => signed_inf Gt a
  | Fin a, NInf | NInf, Fin a => signed_inf Lt a
  | PInf, PInf | NInf, NInf => PInf
  | PInf, NInf | NInf, PInf => NInf
  end.

(** numpy true division: a zero denominator yields inf or nan (with a
    RuntimeWarning), never an exception. *)
Definition ndiv (x y : num) : num :=
  match x, y with
  | NaN, _ | _, NaN => NaN
  | Fin a, Fin b =>
      if Qeq_bool b 0 then signed_inf Gt a else Fin (a / b)
  | Fin _, (PInf | NInf) => Fin 0
  | PInf, Fin b => if Qlt_le_dec b 0 then NInf else PInf
  | NInf, Fin b => if Qlt_le_dec b 0 then PInf else NInf
  | (PInf | NInf), (PInf | NInf) => NaN
  end.

(** Round half to even, as [numpy.rint]. *)
Definition rint (q : Q) : Z :=
  let f := Qfloor q in
  match (q - inject_Z f ?= 1 # 2)%Q with
  | Lt => f
  | Gt => (f + 1)%Z
  | Eq => if Z.even f then f else (f + 1)%Z
  end.

(** [Series.round(2)]. *)
Definition round2 (x : num) : num :=
  match x with
  | Fin q => Fin (inject_Z (rint (q * 100)) / 100)
  | _ => x
  end.

(** ** Tables *)

Record row : Type := mkRow {
  row_id : nat;
  state_name : string;
  district_name : string;
  region : string;
  population_group : string;
  no_of_offices : Q;
  no_of_accounts : Q;
  deposit_amount : Q
}.

Abbreviation DataFrame := (list row).

(** [df[col].sum()]: 0 on an empty column. *)
Definition col_sum (col : row → Q) (df : DataFrame) : Q :=
  foldr (λ r acc, (col r + acc)%Q) 0%Q df.

(** [df[col].mean()]: the sum over the count; for a count of zero pandas
    answers nan without dividing. *)
Definition col_mean (col : row → Q) (df : DataFrame) : num :=
  match length df with
  | 0 => NaN
  | S _ as count => Fin (col_sum col df / inject_Z (Z.of_nat count))
  end.

(** [Series.unique()]: distinct values in order of first appearance. *)
Fixpoint unique (l : list string) : list string :=
  match l with
  | [] => []
  | x :: l' => x :: filter (λ y, y ≠ x) (unique l')
  end.

(** [Series.nunique()]. *)
Definition nunique (l : list string) : nat :=
  size (list_to_set l : gset string).

Fixpoint insert_sorted (s : string) (l : list string) : list string :=
  match l with
  | [] => [s]
  | x :: l' => if (s <=? x)%string then s :: l else x :: insert_sorted s l'
  end.

(** Python's [sorted] on strings (code-point order is byte order in UTF-8). *)
Definition sorted (l : list string) : list string :=
  foldr insert_sorted [] l.

(** ** Effects *)

Inductive effect : Type :=
  | StError (msg : string)
  | StWarning (msg : string)
  | StSuccess (msg : string)
  | StMetric (label : string) (value : num)
  | Render (section : string)
  | Divide (numerator denominator : Q).

(** Python exceptions by root class: [except Exception] catches the first
    kind only. *)
Inductive exn : Type :=
  | Exception (cls msg : string)
  | BaseException (cls : string).

Definition is_Exception (e : exn) : bool :=
  match e with Exception _ _ => true | BaseException _ => false end.

(** [str(e)]. *)
Definition exn_str (e : exn) : string :=
  match e with Exception _ msg => msg | BaseException _ => "" end.

Inductive outcome (A : Type) : Type :=
  | Done (a : A)
  | Raised (e : exn)
  | Stopped.
Arguments Done {A} a.
Arguments Raised {A} e.
Arguments Stopped {A}.

Definition Script (A : Type) : Type := (list effect * outcome A)%type.

Definition ret {A} (a : A) : Script A := ([], Done a).

Definition bind {A B} (m : Script A) (k : A → Script B) : Script B :=
  match m with
  | (es, Done a) => let '(es', o) := k a in (es ++ es', o)
  | (es, Raised e) => (es, Raised e)
  | (es, Stopped) => (es, Stopped)
  end.

Notation "x <- m ;; k" := (bind m (λ x, k))
  (at level 100, m at next level, right associativity).
Notation "m ;; k" := (bind m (λ _, k))
  (at level 100, right associativity).

Definition emit (e : effect) : Script unit := ([e], Done ()).
Definition raise {A} (e : exn) : Script A := ([], Raised e).

(** [try: body  except Exception as e: handler e]. *)
Definition try_except {A} (body : Script A) (handler : exn → Script A)
  : Script A :=
  match body with
  | (es, Raised e) =>
      if is_Exception e
      then let '(es', o) := handler e in (es ++ es', o)
      else (es, Raised e)
  | other => other
  end.

(** Scalar division of two numpy sums, recorded as an effect. *)
Definition divide (a b : Q) : Script num :=
  emit (Divide a b) ;; ret (ndiv (Fin a) (Fin b)).

Definition effects {A} (m : Script A) : list effect := fst m.
Definition result {A} (m : Script A) : outcome A := snd m.


(** ** Artifact store *)

(** State of a backing file as a read finds it. *)
Inductive file_state (A : Type) : Type :=
  | Readable (content : A)
  | Missing
  | Malformed (why : string)
  | Unreadable (why : string).
Arguments Readable {A} content.
Arguments Missing {A}.
Arguments Malformed {A} why.
Arguments Unreadable {A} why.


(** [pd.read_csv], [joblib.load], [json.load], [f.read]: the content, or
    an [OSError] / parser error, all subclasses of [Exception]. *)
Definition read_file {A} (f : file_state A) : Script A :=
  match f with
  | Readable content => ret content
  | Missing =>
      raise (Exception "FileNotFoundError" "No such file or directory")
  | Malformed why => raise (Exception "ParserError" why)
  | Unreadable why => raise (Exception "PermissionError" why)
  end.

(** One row of [final_model_comparison.csv]. *)
Record comparison_row : Type := mkComparison {
  model_name : string;
  test_r2 : Q;
  test_rmse : Q;
  test_mae : Q;
  training_time : Q
}.

(** An opaque fitted regressor. *)
Inductive model : Type := FittedModel (pickle : string).

Record artifacts : Type := mkArtifacts {
  cleaned_data_csv : file_state DataFrame;
  featured_data_csv : file_state DataFrame;
  final_model_comparison_csv : file_state (list comparison_row);
  saved_models : string → file_state model;
  project_summary_json : file_state string;
  data_storytelling_insights_txt : file_state string
}.

(** ** utils/data_loader.py *)

(** The shape shared by every loader: read inside [try], and on
    [Exception] report through [st.error] and return [None]. *)
Definition load_or_none {A} (f : file_state A) (what : string)
  : Script (option A) :=
  try_except
    (content <- read_file f ;; ret (Some content))
    (λ e, emit (StError ("Error loading " +:+ what +:+ ": " +:+ exn_str e)) ;;
          ret None).

Definition load_cleaned_data (fs : artifacts) : Script (option DataFrame) :=
  load_or_none (cleaned_data_csv fs) "cleaned data".




Definition load_project_summary (fs : artifacts) : Script (option string) :=
  load_or_none (project_summary_json fs) "project summary".

Definition load_insights_narrative (fs : artifacts) : Script (option string) :=
  load_or_none (data_storytelling_insights_txt fs) "insights".

Definition get_population_groups (fs : artifacts) : Script (list string) :=
  ret ["Metropolitan"; "Urban"; "Semi-urban"; "Rural"].

Definition get_regions (fs : artifacts) : Script (list string) :=
  df <- load_cleaned_data fs ;;
  match df with
  | Some df => ret (sorted (unique (map region df)))
  | None => ret []
  end.

Definition get_states (fs : artifacts) : Script (list string) :=
  df <- load_cleaned_data fs ;;
  match df with
  | Some df => ret (sorted (unique (map state_name df)))
  | None => ret []
  end.

(** Python truthiness of an optional string argument. *)
Definition truthy (s : option string) : bool :=
  match s with
  | None => false
  | Some v => if decide (v = "") then false else true
  end.

Definition get_districts (fs : artifacts) (state : option string)
  : Script (list string) :=
  df <- load_cleaned_data fs ;;
  match df with
  | Some df =>
      if truthy state
      then ret (sorted (unique (map district_name
                  (filter (λ r, Some (state_name r) = state) df))))
      else ret (sorted (unique (map district_name df)))
  | None => ret []
  end.

(** [c and c != "All"]. *)
Definition is_set (c : option string) : bool :=
  truthy c && (if decide (c = Some "All") then false else true).

Definition filter_data (df : DataFrame)
    (population_group_arg region_arg state_arg : option string) : DataFrame :=
  let filtered_df := df in
  let filtered_df :=
    if is_set population_group_arg
    then filter (λ r, Some (population_group r) = population_group_arg)
           filtered_df
    else filtered_df in
  let filtered_df :=
    if is_set region_arg
    then filter (λ r, Some (region r) = region_arg) filtered_df
    else filtered_df in
  let filtered_df :=
    if is_set state_arg
    then filter (λ r, Some (state_name r) = state_arg) filtered_df
    else filtered_df in
  filtered_df.

Record summary_stats : Type := mkStats {
  total_records : nat;
  total_deposits : Q;
  avg_deposits : num;
  total_offices : Q;
  total_accounts : Q;
  unique_states : nat;
  unique_districts : nat
}.

Definition get_summary_stats (df : DataFrame) : summary_stats :=
  {| total_records := length df;
     total_deposits := col_sum deposit_amount df;
     avg_deposits := col_mean deposit_amount df;
     total_offices := col_sum no_of_offices df;
     total_accounts := col_sum no_of_accounts df;
     unique_states := nunique (map state_name df);
     unique_districts := nunique (map district_name df) |}.

(** What the filter is meant to keep: a row agreeing with every criterion
    that is set. *)
Definition matches_criteria
    (population_group_arg region_arg state_arg : option string) (r : row)
  : Prop :=
  (is_set population_group_arg = true →
     Some (population_group r) = population_group_arg) ∧
  (is_set region_arg = true → Some (region r) = region_arg) ∧
  (is_set state_arg = true → Some (state_name r) = state_arg).

#[global] Instance matches_criteria_dec pg rg st r :
  Decision (matches_criteria pg rg st r).
Proof. unfold matches_criteria. apply _. Defined.

(** ** utils/visualizations.py and the pages' aggregates *)

(** [df.groupby(key)]: group labels in sorted order, each with its rows in
    source order. *)
Definition groupby (key : row → string) (df : DataFrame)
  : list (string * DataFrame) :=
  map (λ k, (k, filter (λ r, key r = k) df)) (sorted (unique (map key df))).

(** [df.groupby(key)[col].sum()]. *)
Definition groupby_sum (key : row → string) (col : row → Q) (df : DataFrame)
  : list (string * Q) :=
  map (λ g, (g.1, col_sum col g.2)) (groupby key df).

(** [sort_values(by, ascending=...)] with pandas' default [kind='quicksort'],
    which fixes the order of the keys but not the order of ties: it is a
    parameter of the model, known only through [sort_contract]. *)
Definition sorter : Type := ∀ A : Type, (A → Q) → bool → list A → list A.

Definition in_order {A} (by_col : A → Q) (ascending : bool) (x y : A) : Prop :=
  if ascending then (by_col x <= by_col y)%Q else (by_col y <= by_col x)%Q.

Record sort_contract (sort_values : sorter) : Prop := mkSortContract {
  sort_permutes : ∀ A by_col ascending (l : list A),
    sort_values A by_col ascending l ≡ₚ l;
  sort_orders : ∀ A by_col ascending (l : list A),
    StronglySorted (in_order by_col ascending)
      (sort_values A by_col ascending l)
}.

(** The series behind the bar chart of [create_top_states_chart]. *)
Definition create_top_states_chart (sort_values : sorter)
    (df : DataFrame) (top_n : nat) : list (string * Q) :=
  take top_n (sort_values _ snd false (groupby_sum state_name deposit_amount df)).

(** [groupby('district_name').agg({'deposit_amount': 'sum',
    'state_name': 'first'})]. *)
Definition district_totals (df : DataFrame) : list (string * (Q * string)) :=
  map (λ g, (g.1, (col_sum deposit_amount g.2,
                   default "" (head (map state_name g.2)))))
      (groupby district_name df).

Definition top_districts (sort_values : sorter) (df : DataFrame)
  : list (string * (Q * string)) :=
  take 10 (sort_values _ (λ d, d.2.1) false (district_totals df)).

Definition bottom_districts (sort_values : sorter) (df : DataFrame)
  : list (string * (Q * string)) :=
  take 10 (sort_values _ (λ d, d.2.1) true (district_totals df)).

(** A sorter meeting the contract: insertion sort on the key column. *)
Fixpoint insert_by {A} (by_col : A → Q) (ascending : bool) (x : A)
    (l : list A) : list A :=
  match l with
  | [] => [x]
  | y :: l' =>
      if (if ascending then Qle_bool (by_col x) (by_col y)
          else Qle_bool (by_col y) (by_col x))
      then x :: l
      else y :: insert_by by_col ascending x l'
  end.

Definition insertion_sorter : sorter :=
  λ A by_col ascending l, foldr (insert_by by_col ascending) [] l.

(** *** Geographic page: ratio metrics *)

Inductive efficiency_metric : Type :=
  | AccountsPerOffice
  | DepositPerOffice
  | DepositPerAccount.

(** [Series.replace(0, 1)]. *)
Definition replace_0_1 (q : Q) : Q := if Qeq_bool q 0 then 1%Q else q.

(** The per-row [df['metric']] column of the efficiency section. *)
Definition metric (m : efficiency_metric) (df : DataFrame) : list num :=
  match m with
  | AccountsPerOffice =>
      map (λ r, ndiv (Fin (no_of_accounts r))
                     (Fin (replace_0_1 (no_of_offices r)))) df
  | DepositPerOffice =>
      map (λ r, ndiv (Fin (deposit_amount r))
                     (Fin (replace_0_1 (no_of_offices r)))) df
  | DepositPerAccount =>
      map (λ r, ndiv (Fin (deposit_amount r))
                     (Fin (replace_0_1 (no_of_accounts r)))) df
  end.

Record efficiency_row : Type := mkEfficiency {
  eff_region : string;
  deposit_per_office : num;
  deposit_per_account : num;
  accounts_per_office : num
}.

(** The regional comparison table: per-region sums, then the three ratios
    of those sums, rounded to two decimals. *)
Definition efficiency_df (comparison_df : DataFrame) : list efficiency_row :=
  map (λ g,
         let deposit := col_sum deposit_amount g.2 in
         let offices := col_sum no_of_offices g.2 in
         let accounts := col_sum no_of_accounts g.2 in
         {| eff_region := g.1;
            deposit_per_office := round2 (ndiv (Fin deposit) (Fin offices));
            deposit_per_account := round2 (ndiv (Fin deposit) (Fin accounts));
            accounts_per_office := round2 (ndiv (Fin accounts) (Fin offices))
         |})
      (groupby region comparison_df).

(** *** Predictions page *)

Definition similar_records (df : DataFrame) (pop_group reg : string)
  : DataFrame :=
  filter (λ r, population_group r = pop_group ∧ region r = reg) df.

(** The body run when the "Predict Deposit Amount" button is pressed. *)
Definition predict_button (df : DataFrame) (offices accounts : Z)
    (pop_group reg : string) : Script (option num) :=
  let avg_deposits := col_mean deposit_amount df in
  let similar := similar_records df pop_group reg in
  if decide (0 < length similar) then
    avg_deposit_per_office <-
      divide (col_sum deposit_amount similar) (col_sum no_of_offices similar) ;;
    avg_deposit_per_account <-
      divide (col_sum deposit_amount similar) (col_sum no_of_accounts similar) ;;
    let predicted_deposit :=
      nadd (nmul (nmul (Fin (inject_Z offices)) avg_deposit_per_office)
                 (Fin (1 # 2)))
           (nmul (nmul (Fin (inject_Z accounts)) avg_deposit_per_account)
                 (Fin (1 # 2))) in
    emit (StSuccess "✅ Prediction Complete!") ;;
    emit (StMetric "Predicted Deposit" predicted_deposit) ;;
    emit (StMetric "vs Average"
            (nmul (ndiv (nadd predicted_deposit (nneg avg_deposits))
                        avg_deposits)
                  (Fin 100))) ;;
    emit (StMetric "Confidence"
            (Fin (if decide (10 < length similar) then 85 else 70))) ;;
    emit (Render "Prediction Breakdown") ;;
    emit (Render "Insights") ;;
    ret (Some predicted_deposit)
  else
    emit (StError "No similar records found for this combination. Please try different parameters.") ;;
    ret None.


(** *** Correlation *)

(** [DataFrame.corr()] is pandas' Pearson coefficient; its square root
    takes the model to the reals.  [None] stands for nan. *)
Definition rsum (l : list R) : R := foldr Rplus 0%R l.

Definition rmean (l : list R) : R := (rsum l / INR (length l))%R.

(** Sum of products of deviations from the means. *)
Definition co_deviation (x y : list R) : R :=
  rsum (zip_with (λ a b, ((a - rmean x) * (b - rmean y))%R) x y).

Definition pearson (x y : list R) : option R :=
  let divisor := sqrt (co_deviation x x * co_deviation y y) in
  if Req_dec_T divisor 0 then None
  else Some (co_deviation x y / divisor)%R.

Definition column (col : row → Q) (df : DataFrame) : list R :=
  map (λ r, Q2R (col r)) df.

(** [df[columns].corr()]: one row of coefficients per column. *)
Definition corr (df : DataFrame) (columns : list (row → Q))
  : list (list (option R)) :=
  map (λ ci, map (λ cj, pearson (column ci df) (column cj df)) columns)
      columns.

Definition numerical_features : list (row → Q) :=
  [no_of_offices; no_of_accounts; deposit_amount].

(** The [z] values of the heatmap. *)
Definition create_correlation_heatmap (df : DataFrame)
    (columns : list (row → Q)) : list (list (option R)) :=
  corr df columns.

Definition entry (m : list (list (option R))) (i j : nat) : option (option R) :=
  m !! i ≫= λ line, line !! j.

(** No column of the selection is constant (so there are two rows or more). *)
Definition non_degenerate (df : DataFrame) (columns : list (row → Q)) : Prop :=
  Forall (λ c, co_deviation (column c df) (column c df) ≠ 0%R) columns.

(** *** Page scripts: what each page does with its loads *)








(** The Insights page never halts: it guards the one section that needs
    the table and carries on. *)
Definition page_insights (fs : artifacts) : Script unit :=
  emit (Render "Insights & Recommendations") ;;
  narrative <- load_insights_narrative fs ;;
  df <- load_cleaned_data fs ;;
  emit (Render "Executive Summary") ;;
  emit (Render "Key Findings") ;;
  match df with
  | Some _ => emit (Render "Regional Disparities")
  | None => ret ()
  end ;;
  emit (Render "Actionable Recommendations") ;;
  emit (Render "Practical Use Cases") ;;
  emit (Render "Return on Investment Analysis") ;;
  match narrative with
  | Some text =>
      if decide (text = "")
      then emit (StWarning "Narrative file not found. Please ensure data_storytelling_insights.txt exists in reports/model_results/")
      else emit (Render "Complete Data Storytelling Narrative")
  | None => emit (StWarning "Narrative file not found. Please ensure data_storytelling_insights.txt exists in reports/model_results/")
  end.

(** ** The specification's worked example *)

(** The three rows of the example; it leaves states and districts open,
    and they are taken pairwise distinct here. *)
Definition example_table : DataFrame :=
  [ mkRow 0 "Bihar" "Patna" "East" "Rural" 2 20 1000;
    mkRow 1 "Odisha" "Puri" "East" "Rural" 3 45 2000;
    mkRow 2 "Gujarat" "Surat" "West" "Urban" 5 100 9000 ].

(** The estimate in the specification's words: half the office count times
    deposits per office plus half the account count times deposits per
    account, both rates being ratios of sums over the matching subset. *)
Definition spec_estimate (subset : DataFrame) (offices accounts : Z) : num :=
  let deposit_per_office :=
    ndiv (Fin (col_sum deposit_amount subset))
         (Fin (col_sum no_of_offices subset)) in
  let deposit_per_account :=
    ndiv (Fin (col_sum deposit_amount subset))
         (Fin (col_sum no_of_accounts subset)) in
  nadd (nmul (nmul (Fin (1 # 2)) (Fin (inject_Z offices))) deposit_per_office)
       (nmul (nmul (Fin (1 # 2)) (Fin (inject_Z accounts))) deposit_per_account).



(** A dataset holding only the given table. *)
Definition only_cleaned (df : DataFrame) : artifacts :=
  mkArtifacts (Readable df) Missing Missing (λ _, Missing) Missing Missing.

(** A region whose branches hold deposits but no accounts. *)
Definition region_without_accounts : DataFrame :=
  [ mkRow 0 "Bihar" "Patna" "East" "Rural" 1 0 100 ].



(** Two rows of one state. *)
Definition shared_state_table : DataFrame :=
  [ mkRow 0 "Bihar" "Patna" "East" "Rural" 2 20 1000;
    mkRow 1 "Bihar" "Gaya" "East" "Rural" 3 45 2000 ].

(** Insertion sort run on the reversed input: the same keys, ties the
    other way round. *)
Definition reversing_sorter : sorter :=
  λ A by_col ascending l, insertion_sorter A by_col ascending (reverse l).

(** [top] holds the first [n] entries of [all] put in order: it is a
    prefix of an ordered rearrangement of [all], [n] long unless [all] is
    shorter. *)
Definition first_n_in_order {A} (by_col : A → Q) (ascending : bool) (n : nat)
    (top all : list A) : Prop :=
  length top = min n (length all)
  ∧ ∃ rest, top ++ rest ≡ₚ all
            ∧ StronglySorted (in_order by_col ascending) (top ++ rest).

(** ** EDA page: sidebar filters *)

(** The choices offered by the three select boxes. *)
Definition population_options (df : DataFrame) : list string :=
  "All" :: unique (map population_group df).

Definition region_options (df : DataFrame) : list string :=
  "All" :: sorted (unique (map region df)).

Definition state_options (df : DataFrame) : list string :=
  "All" :: sorted (unique (map state_name df)).

(** [choice if choice != "All" else None]. *)
Definition none_if_all (choice : string) : option string :=
  if decide (choice = "All") then None else Some choice.

Definition eda_filtered_df (df : DataFrame)
    (population_filter region_filter state_filter : string) : DataFrame :=
  filter_data df (none_if_all population_filter) (none_if_all region_filter)
    (none_if_all state_filter).

(** ** utils/visualizations.py: the remaining charts *)

Definition qsum (l : list Q) : Q := foldr Qplus 0%Q l.

(** [Series.value_counts()]: each label with its frequency, labels taken
    in order of first appearance and then sorted by frequency, highest
    first. *)
Definition value_counts (sort_values : sorter) (l : list string)
  : list (string * nat) :=
  sort_values _ (λ p, inject_Z (Z.of_nat p.2)) false
    (map (λ k, (k, length (filter (λ x, x = k) l))) (unique l)).

(** The bars (and pie slices) of [create_population_group_chart]. *)
Definition create_population_group_chart (sort_values : sorter)
    (df : DataFrame) : list (string * nat) :=
  value_counts sort_values (map population_group df).



(** [Series.round(decimals)] on an ordinary number. *)
Definition round_to (decimals : nat) (q : Q) : Q :=
  (inject_Z (rint (q * inject_Z (10 ^ Z.of_nat decimals)))
   / inject_Z (10 ^ Z.of_nat decimals))%Q.

(** The bars of [create_model_comparison_chart]: name, R² and its label,
    for the first fifteen rows of the table as it stands. *)
Definition create_model_comparison_chart (df : list comparison_row)
  : list (string * Q * Q) :=
  map (λ m, (model_name m, test_r2 m, round_to 4 (test_r2 m))) (take 15 df).

(** The [marker_size] column of [create_scatter_r2_vs_time]:
    [test_r2.clip(lower=0) * 100 + 5]. *)
Definition marker_size (df : list comparison_row) : list Q :=
  map (λ m, (Qmax (test_r2 m) 0 * 100 + 5)%Q) df.

(** [<] on float values: false whenever nan is involved. *)
Definition nlt (x y : num) : bool :=
  match x, y with
  | NaN, _ | _, NaN => false
  | Fin a, Fin b => if Qlt_le_dec a b then true else false
  | NInf, NInf | PInf, PInf => false
  | NInf, _ | _, PInf => true
  | _, NInf | PInf, _ => false
  end.

(** Python's [min(a, b)] and [max(a, b)]: the first argument unless the
    second is strictly smaller (larger). *)
Definition py_min (a b : num) : num := if nlt b a then b else a.
Definition py_max (a b : num) : num := if nlt a b then b else a.

(** [Series.min()] and [Series.max()]: nan on an empty series. *)
Definition series_min (l : list Q) : num :=
  match l with
  | [] => NaN
  | x :: l' => Fin (foldr Qmin x l')
  end.

Definition series_max (l : list Q) : num :=
  match l with
  | [] => NaN
  | x :: l' => Fin (foldr Qmax x l')
  end.

(** The two ends [(min_val, max_val)] of the "perfect prediction" line of
    [create_actual_vs_predicted], the arguments being pandas series. *)
Definition create_actual_vs_predicted (y_true y_pred : list Q) : num * num :=
  let min_val := py_min (series_min y_true) (series_min y_pred) in
  let max_val := py_max (series_max y_true) (series_max y_pred) in
  (min_val, max_val).

(** [DataFrame.tail(n)]. *)
Definition tail_n {A} (n : nat) (l : list A) : list A :=
  drop (length l - n) l.

(** The bars of [create_feature_importance_chart]: building the frame
    fails with [ValueError] when the two lists differ in length. *)
Definition create_feature_importance_chart (sort_values : sorter)
    (features : list string) (importance : list Q)
  : Script (list (string * Q)) :=
  if decide (length features = length importance)
  then ret (tail_n 15 (sort_values _ snd true (zip features importance)))
  else raise (Exception "ValueError" "All arrays must be of the same length").

(** Twenty models listed from the best R² down. *)
Definition ranked_models : list comparison_row :=
  map (λ i, mkComparison "model" (inject_Z (20 - Z.of_nat i) / 20) 0 0 0)
      (seq 0 20).

(** ** Geographic page: further tables *)

Record regional_data_row : Type := mkRegionalData {
  rd_region : string;
  rd_total_deposits : Q;
  rd_avg_deposits : num;
  rd_records : nat;
  rd_total_offices : Q;
  rd_total_accounts : Q
}.

(** The [regional_data] table (the Insights page builds the same table
    without the office and account columns): per region the sum, mean and
    count of deposits and the sums of offices and accounts, rounded to two
    decimals and ordered by total deposits, largest first. *)
Definition regional_data (sort_values : sorter) (df : DataFrame)
  : list regional_data_row :=
  sort_values _ rd_total_deposits false
    (map (λ g,
            {| rd_region := g.1;
               rd_total_deposits := round_to 2 (col_sum deposit_amount g.2);
               rd_avg_deposits := round2 (col_mean deposit_amount g.2);
               rd_records := length g.2;
               rd_total_offices := round_to 2 (col_sum no_of_offices g.2);
               rd_total_accounts := round_to 2 (col_sum no_of_accounts g.2) |})
         (groupby region df)).

(** One column of [normalized_data], the heatmap of the state details:
    [(col - col.min()) / (col.max() - col.min())]. *)
Definition normalized_data (col : list Q) : list num :=
  map (λ v, ndiv (nadd (Fin v) (nneg (series_min col)))
                 (nadd (series_max col) (nneg (series_min col))))
      col.

(** ** Predictions page: the input form *)

(** [int(x)] of a float: truncation towards zero; nan and the infinities
    cannot be converted. *)
Definition py_int (x : num) : Script Z :=
  match x with
  | Fin q => ret (if Qle_bool 0 q then Qfloor q else Qceiling q)
  | NaN =>
      raise (Exception "ValueError" "cannot convert float NaN to integer")
  | PInf | NInf =>
      raise (Exception "OverflowError"
               "cannot convert float infinity to integer")
  end.

(** The bounds and the default handed to one [st.number_input]. *)
Record number_input : Type := mkNumberInput {
  min_value : Z;
  max_value : Z;
  value : Z
}.

(** The arguments of a count's input box, evaluated in source order:
    [min_value=1, max_value=int(df[col].max()), value=int(df[col].mean())]. *)
Definition count_input (col : row → Q) (df : DataFrame) : Script number_input :=
  max_value <- py_int (series_max (map col df)) ;;
  value <- py_int (col_mean col df) ;;
  ret {| min_value := 1; max_value := max_value; value := value |}.

(** The two input boxes of the form: offices, then accounts. *)
Definition prediction_inputs (df : DataFrame)
  : Script (number_input * number_input) :=
  offices <- count_input no_of_offices df ;;
  accounts <- count_input no_of_accounts df ;;
  ret (offices, accounts).

(** ** Models page: overview *)

Fixpoint idxmax_from (best_i : nat) (best : Q) (i : nat) (l : list Q) : nat :=
  match l with
  | [] => best_i
  | x :: l' =>
      if Qlt_le_dec best x
      then idxmax_from i x (S i) l'
      else idxmax_from best_i best (S i) l'
  end.

(** [Series.idxmax()]: the label of the first largest value; an empty
    series has none. *)
Definition idxmax (l : list Q) : Script nat :=
  match l with
  | [] =>
      raise (Exception "ValueError"
               "attempt to get argmax of an empty sequence")
  | x :: l' => ret (idxmax_from 0 x 1 l')
  end.

(** The four overview metrics.  The name shown as "Best Model" is the
    script's result; the numeric ones are emitted. *)
Definition models_overview (comparison_df : list comparison_row)
  : Script string :=
  emit (StMetric "Total Models Trained"
          (Fin (inject_Z (Z.of_nat (length comparison_df))))) ;;
  let best_r2 := series_max (map test_r2 comparison_df) in
  emit (StMetric "Best R² Score" best_r2) ;;
  label <- idxmax (map test_r2 comparison_df) ;;
  best_model_name <-
    match comparison_df !! label with
    | Some m => ret (model_name m)
    | None => raise (Exception "KeyError" "")
    end ;;
  let best_rmse := series_min (map test_rmse comparison_df) in
  emit (StMetric "Best RMSE" best_rmse) ;;
  ret best_model_name.

(** ** check_setup.py *)

(** What the readiness check inspects: the interpreter's version, the
    packages that import, the paths that exist under the project root and
    those that exist under the working directory.  Each check is modelled
    by the value it returns; its printed report is left out. *)
Record environment : Type := mkEnvironment {
  python_version : Z * Z * Z;
  importable : gset string;
  project_files : gset string;
  cwd_files : gset string
}.

Definition check_python_version (env : environment) : bool :=
  let '(major, minor, _) := python_version env in
  (3 <=? major)%Z && (8 <=? minor)%Z.

Definition required_packages : list string :=
  ["streamlit"; "pandas"; "numpy"; "plotly"; "sklearn"].

(** The [missing] list built by [check_dependencies]. *)
Definition missing_packages (env : environment) : list string :=
  filter (λ package, package ∉ importable env) required_packages.

Definition check_dependencies (env : environment) : bool :=
  if decide (missing_packages env = []) then true else false.

(** Path, description, and whether the file is required. *)
Definition required_files : list (string * string * bool) :=
  [ ("data/processed/cleaned_data.csv", "Cleaned dataset", true);
    ("data/processed/featured_data.csv", "Featured dataset", true);
    ("models/saved_models/extra_trees.pkl", "Extra Trees model", true);
    ("models/saved_models/gradient_boosting.pkl", "Gradient Boosting model",
     true);
    ("models/saved_models/decision_tree.pkl", "Decision Tree model", true);
    ("reports/model_results/model_comparison.csv", "Model comparison", true);
    ("reports/model_results/project_summary.json", "Project summary", false);
    ("reports/model_results/data_storytelling_insights.txt",
     "Insights narrative", false) ].

(** The loop of [check_file_structure]: [all_ok] drops to [False] at a
    required file that is absent, and never comes back. *)
Definition check_file_structure (env : environment) : bool :=
  foldl (λ (all_ok : bool) '((file_path, _, required) : string * string * bool),
           if decide (file_path ∈ project_files env) then all_ok
           else if required then false else all_ok)
        true required_files.

Definition app_files : list string :=
  [ "app.py";
    "utils/data_loader.py";
    "utils/visualizations.py";
    "pages/1_📈_EDA.py";
    "pages/2_🤖_Models.py";
    "pages/3_🎯_Predictions.py";
    "pages/4_💡_Insights.py";
    "pages/5_🗺️_Geographic.py";
    "pages/6_🔬_Interpretability.py";
    "pages/7_📊_Clustering.py";
    "pages/8_📁_Downloads.py" ].

Definition check_streamlit_app (env : environment) : bool :=
  foldl (λ (all_ok : bool) (file_path : string),
           if decide (file_path ∈ cwd_files env) then all_ok else false)
        true app_files.

(** The exit code of [main]: the dependencies are looked at only when
    the interpreter passed. *)
Definition main (env : environment) : Z :=
  let python_ok := check_python_version env in
  let deps_ok := if python_ok then check_dependencies env else false in
  let files_ok := check_file_structure env in
  let app_ok := check_streamlit_app env in
  let ready := python_ok && deps_ok && files_ok && app_ok in
  if ready then 0%Z else 1%Z.

(** The path [load_model_comparison] reads. *)
Definition model_comparison_path : string :=
  "reports/model_results/final_model_comparison.csv".

(** * Properties *)

(** ** Filtering and summary statistics *)

Lemma filter_data_unfold df pg rg st :
  filter_data df pg rg st = filter (matches_criteria pg rg st) df.
Proof.
  unfold filter_data.
  destruct (is_set pg) eqn:Hpg, (is_set rg) eqn:Hrg, (is_set st) eqn:Hst;
    rewrite ?list_filter_filter;
    try (apply list_filter_iff; intros r; unfold matches_criteria;
         rewrite Hpg, Hrg, Hst; intuition congruence).
  induction df as [|r df IH]; [done|].
  rewrite filter_cons_True; [by f_equal|].
  unfold matches_criteria. rewrite Hpg, Hrg, Hst. intuition congruence.
Qed.


(** The spec's scenario: filtering the example by Rural keeps its first
    two rows, whose statistics are 2 records, 3000, 5 and 65. *)
Example filter_data_rural :
  filter_data example_table (Some "Rural") None None = take 2 example_table
  ∧ total_records (get_summary_stats (take 2 example_table)) = 2
  ∧ total_deposits (get_summary_stats (take 2 example_table)) = 3000%Q
  ∧ total_offices (get_summary_stats (take 2 example_table)) = 5%Q
  ∧ total_accounts (get_summary_stats (take 2 example_table)) = 65%Q.
Proof. by vm_compute. Qed.

(** C3. On the empty table [get_summary_stats] is defined, every count and
    sum is zero, and the mean is nan, pandas' not-applicable value. *)
Theorem get_summary_stats_empty :
  get_summary_stats [] =
    {| total_records := 0; total_deposits := 0; avg_deposits := NaN;
       total_offices := 0; total_accounts := 0;
       unique_states := 0; unique_districts := 0 |}.
Proof. reflexivity. Qed.

(** ** Category enumerations *)

(** C9. [get_population_groups] answers the same four labels in the same
    unsorted order whatever the artifact store holds, while the region, state
    and district lists are the sorted distinct values of the loaded table
    and are empty when it cannot be loaded. *)
Theorem get_population_groups_fixed (fs : artifacts) :
  get_population_groups fs =
    ([], Done ["Metropolitan"; "Urban"; "Semi-urban"; "Rural"])
  ∧ sorted ["Metropolitan"; "Urban"; "Semi-urban"; "Rural"]
      ≠ ["Metropolitan"; "Urban"; "Semi-urban"; "Rural"]
  ∧ match cleaned_data_csv fs with
    | Readable df =>
        get_regions fs = ([], Done (sorted (unique (map region df))))
        ∧ get_states fs = ([], Done (sorted (unique (map state_name df))))
        ∧ get_districts fs None =
            ([], Done (sorted (unique (map district_name df))))
    | _ =>
        result (get_regions fs) = Done []
        ∧ result (get_states fs) = Done []
        ∧ result (get_districts fs None) = Done []
    end.
Proof.
  split; [done|]. split; [by vm_compute|].
  unfold get_regions, get_states, get_districts, load_cleaned_data,
    load_or_none.
  by destruct (cleaned_data_csv fs).
Qed.

(** The region list does follow the data: two stores, two answers. *)
Example get_regions_follows_data :
  result (get_regions (only_cleaned example_table)) = Done ["East"; "West"]
  ∧ result (get_regions (only_cleaned (take 2 example_table))) = Done ["East"]
  ∧ get_population_groups (only_cleaned example_table)
    = get_population_groups (only_cleaned (take 2 example_table)).
Proof. by vm_compute. Qed.

(** ** Arithmetic on [num] *)

Lemma nadd_proper x x' y y' :
  num_eq x x' → num_eq y y' → num_eq (nadd x y) (nadd x' y').
Proof.
  destruct x, x', y, y'; simpl; try tauto.
  intros -> ->. reflexivity.
Qed.

Lemma Qcompare_half a : ((1 # 2) * a ?= 0)%Q = (a ?= 0)%Q.
Proof.
  destruct (Qcompare_spec a 0) as [H|H|H].
  - apply Qeq_alt. rewrite H. reflexivity.
  - apply Qlt_alt. rewrite <- (Qmult_0_r (1 # 2)).
    apply Qmult_lt_l; [reflexivity | assumption].
  - apply Qgt_alt. rewrite <- (Qmult_0_r (1 # 2)).
    apply Qmult_lt_l; [reflexivity | assumption].
Qed.

(** Halving commutes with the other factors, specials included. *)
Lemma nmul_half_assoc a d :
  num_eq (nmul (nmul (Fin a) d) (Fin (1 # 2)))
         (nmul (nmul (Fin (1 # 2)) (Fin a)) d).
Proof.
  destruct d as [q| | |]; simpl.
  - ring.
  - unfold signed_inf. rewrite Qcompare_half. by destruct (a ?= 0)%Q.
  - unfold signed_inf. rewrite Qcompare_half. by destruct (a ?= 0)%Q.
  - done.
Qed.

(** ** The prediction tool *)

Lemma length_pos_nonempty {A} (l : list A) : 0 < length l ↔ l ≠ [].
Proof. destruct l; simpl; split; (lia || congruence || done). Qed.

(** C1. When some row matches the chosen population group and region, the
    tool's estimate is half the office count times (sum of deposits / sum
    of offices) plus half the account count times (sum of deposits / sum of
    accounts), sums taken over the matching rows.  On the example's two
    Rural/East rows with 4 offices and 30 accounts it is within 0.05 of
    1892.3. *)
Theorem predicted_deposit_formula :
  (∀ df offices accounts pg rg,
     similar_records df pg rg ≠ [] →
     ∃ v,
       result (predict_button df offices accounts pg rg) = Done (Some v)
       ∧ StMetric "Predicted Deposit" v
           ∈ effects (predict_button df offices accounts pg rg)
       ∧ num_eq v (spec_estimate (similar_records df pg rg) offices accounts))
  ∧ similar_records example_table "Rural" "East" = take 2 example_table
  ∧ ∃ q,
      result (predict_button example_table 4 30 "Rural" "East")
        = Done (Some (Fin q))
      ∧ (Qabs (q - (18923 # 10)) < (1 # 20))%Q.
Proof.
  split; [|split].
  - intros df offices accounts pg rg Hne.
    unfold predict_button.
    destruct (decide (0 < length (similar_records df pg rg))) as [_|Hlen];
      [|by apply length_pos_nonempty in Hne].
    eexists. split; [reflexivity|]. split.
    + cbn. rewrite !elem_of_cons. auto.
    + apply nadd_proper; apply nmul_half_assoc.
  - by vm_compute.
  - eexists. split; [by vm_compute|]. by vm_compute.
Qed.

(** The formula at the example: 4 offices and 30 accounts in Rural/East. *)
Lemma predicted_deposit_formula_witness :
  similar_records example_table "Rural" "East" ≠ []
  ∧ ∃ v,
      result (predict_button example_table 4 30 "Rural" "East") = Done (Some v)
      ∧ StMetric "Predicted Deposit" v
          ∈ effects (predict_button example_table 4 30 "Rural" "East")
      ∧ num_eq v (spec_estimate (similar_records example_table "Rural" "East")
                    4 30).
Proof.
  assert (H : similar_records example_table "Rural" "East" ≠ [])
    by (vm_compute; discriminate).
  split; [exact H|].
  exact (proj1 predicted_deposit_formula example_table 4%Z 30%Z "Rural" "East" H).
Defined.

(** C6. When no row matches the chosen population group and region, the
    tool's whole effect is the message that no similar records were found:
    it divides nothing, shows no metric and returns no estimate. *)
Theorem no_similar_records df offices accounts pg rg :
  similar_records df pg rg = [] →
  predict_button df offices accounts pg rg =
    ([StError "No similar records found for this combination. Please try different parameters."],
     Done None)
  ∧ (∀ a b, Divide a b ∉ effects (predict_button df offices accounts pg rg))
  ∧ (∀ l v, StMetric l v ∉ effects (predict_button df offices accounts pg rg)).
Proof.
  intros Hempty. unfold predict_button. rewrite Hempty.
  destruct (decide (0 < length (@nil row))) as [Hlen|_];
    [simpl in Hlen; lia|].
  cbn. split; [done|].
  split; intros ? ?; rewrite list_elem_of_singleton; discriminate.
Qed.

(** No Rural row of the example lies in the West. *)
Lemma no_similar_records_witness :
  similar_records example_table "Rural" "West" = []
  ∧ predict_button example_table 4 30 "Rural" "West" =
      ([StError "No similar records found for this combination. Please try different parameters."],
       Done None).
Proof.
  assert (H : similar_records example_table "Rural" "West" = [])
    by (vm_compute; reflexivity).
  split; [exact H|].
  exact (proj1 (no_similar_records example_table 4%Z 30%Z "Rural" "West" H)).
Defined.



(** ** Ratio metrics of the Geographic page *)

Lemma replace_0_1_nonzero q : Qeq_bool (replace_0_1 q) 0 = false.
Proof. unfold replace_0_1. by destruct (Qeq_bool q 0) eqn:H. Qed.

(** The per-row metric replaces a zero count by one before dividing, so
    each of its entries is an ordinary number. *)
Lemma metric_is_finite m df : Forall (λ v, is_finite v = true) (metric m df).
Proof.
  destruct m; unfold metric; apply Forall_fmap, Forall_true; intros r;
    simpl; by rewrite replace_0_1_nonzero.
Qed.

(** C7. The regional comparison table divides the per-region sums as they
    are: for a region whose rows hold no accounts, deposit per account is
    infinite, although the per-row metric of the same page is guarded. *)
Theorem efficiency_df_unguarded :
  deposit_per_account <$> efficiency_df region_without_accounts = [PInf]
  ∧ is_finite <$> metric DepositPerAccount region_without_accounts = [true].
Proof. by vm_compute. Qed.

(** ** Loading *)




(** ** Grouping and Top-N *)

Lemma insert_sorted_Permutation s l : insert_sorted s l ≡ₚ s :: l.
Proof.
  induction l as [|x l IH]; simpl; [done|].
  destruct (s <=? x)%string; [done|].
  rewrite IH. apply perm_swap.
Qed.

Lemma sorted_Permutation l : sorted l ≡ₚ l.
Proof.
  induction l as [|x l IH]; simpl; [done|].
  by rewrite insert_sorted_Permutation, IH.
Qed.

Lemma elem_of_unique x l : x ∈ unique l ↔ x ∈ l.
Proof.
  induction l as [|y l IH]; simpl; [done|].
  rewrite !elem_of_cons, list_elem_of_filter, IH.
  destruct (decide (x = y)); tauto.
Qed.

Lemma NoDup_unique l : NoDup (unique l).
Proof.
  induction l as [|y l IH]; simpl; [constructor|].
  constructor.
  - rewrite list_elem_of_filter. tauto.
  - by apply NoDup_filter.
Qed.

Lemma groupby_sum_unfold key col df :
  groupby_sum key col df =
    (λ k, (k, col_sum col (filter (λ r, key r = k) df)))
      <$> sorted (unique (map key df)).
Proof. unfold groupby_sum, groupby. by rewrite <- list_fmap_compose. Qed.

(** The groups are the distinct keys, once each, with the sum of their rows. *)
Lemma groupby_sum_keys key col df :
  (groupby_sum key col df).*1 ≡ₚ unique (map key df)
  ∧ ∀ k v, (k, v) ∈ groupby_sum key col df ↔
           k ∈ map key df ∧ v = col_sum col (filter (λ r, key r = k) df).
Proof.
  rewrite groupby_sum_unfold. split.
  - rewrite <- list_fmap_compose.
    rewrite <- (sorted_Permutation (unique (map key df))) at 2.
    generalize (sorted (unique (map key df))).
    intros l. induction l as [|a l IH]; simpl; [done|by constructor].
  - intros k v. rewrite list_elem_of_fmap.
    setoid_rewrite sorted_Permutation. setoid_rewrite elem_of_unique.
    split.
    + by intros (k' & [= -> ->] & Hk).
    + intros [Hk ->]. by exists k.
Qed.

Lemma length_groupby key df :
  length (groupby key df) = length (unique (map key df)).
Proof.
  unfold groupby. by rewrite length_fmap, sorted_Permutation.
Qed.

Lemma in_order_trans {A} (by_col : A → Q) asc x y z :
  in_order by_col asc x y → in_order by_col asc y z → in_order by_col asc x z.
Proof.
  unfold in_order. destruct asc; intros H1 H2.
  - by apply Qle_trans with (by_col y).
  - by apply Qle_trans with (by_col y).
Qed.

Lemma insert_by_Permutation {A} (by_col : A → Q) asc x l :
  insert_by by_col asc x l ≡ₚ x :: l.
Proof.
  induction l as [|y l IH]; simpl; [done|].
  destruct (if asc then _ else _); [done|].
  rewrite IH. apply perm_swap.
Qed.

Lemma insert_by_sorted {A} (by_col : A → Q) asc x l :
  StronglySorted (in_order by_col asc) l →
  StronglySorted (in_order by_col asc) (insert_by by_col asc x l).
Proof.
  induction 1 as [|y l Hl IH Hy]; simpl.
  { repeat constructor. }
  destruct (if asc then _ else _) eqn:Htest.
  - assert (Hxy : in_order by_col asc x y).
    { unfold in_order. destruct asc; by apply Qle_bool_iff. }
    constructor; [by constructor|].
    constructor; [done|].
    eapply Forall_impl; [exact Hy|].
    intros z Hz. by apply in_order_trans with y.
  - assert (Hyx : in_order by_col asc y x).
    { unfold in_order. destruct asc; apply Qlt_le_weak, Qnot_le_lt;
        rewrite <- Qle_bool_iff; by rewrite Htest. }
    constructor; [done|].
    rewrite insert_by_Permutation. by constructor.
Qed.

Lemma insertion_sorter_contract : sort_contract insertion_sorter.
Proof.
  split; intros A by_col asc l; unfold insertion_sorter.
  - induction l as [|x l IH]; simpl; [done|].
    by rewrite insert_by_Permutation, IH.
  - induction l as [|x l IH]; simpl; [constructor|].
    by apply insert_by_sorted.
Qed.

Lemma reversing_sorter_contract : sort_contract reversing_sorter.
Proof.
  split; intros A by_col asc l; unfold reversing_sorter.
  - rewrite (sort_permutes _ insertion_sorter_contract).
    apply reverse_Permutation.
  - apply (sort_orders _ insertion_sorter_contract).
Qed.

(** Both sorters meet the contract, yet they order two equal totals
    differently: the contract, like the default sort kind, leaves ties open. *)
Lemma sort_contract_leaves_ties_open :
  sort_contract insertion_sorter
  ∧ sort_contract reversing_sorter
  ∧ insertion_sorter _ snd false [("Bihar", 5%Q); ("Goa", 5%Q)]
    = [("Bihar", 5%Q); ("Goa", 5%Q)]
  ∧ reversing_sorter _ snd false [("Bihar", 5%Q); ("Goa", 5%Q)]
    = [("Goa", 5%Q); ("Bihar", 5%Q)].
Proof.
  split; [exact insertion_sorter_contract|].
  split; [exact reversing_sorter_contract|].
  by vm_compute.
Qed.

(** Taking the head of a sorted table. *)
Lemma take_sorted_first_n sort_values {A} (by_col : A → Q) asc n (all : list A) :
  sort_contract sort_values →
  first_n_in_order by_col asc n (take n (sort_values A by_col asc all)) all.
Proof.
  intros Hs. split.
  - by rewrite length_take, (sort_permutes _ Hs).
  - exists (drop n (sort_values A by_col asc all)).
    rewrite take_drop. split; [apply (sort_permutes _ Hs)|apply (sort_orders _ Hs)].
Qed.

(** C5. Top-N and Bottom-N rank groups, not rows: the table is
    grouped by state (or district), deposits are summed per group, and the
    result is the first N groups in non-increasing (for Bottom-N
    non-decreasing) order of total.  It holds N groups unless there are
    fewer distinct keys.  On the example, whose three rows lie in three
    states, Top-2 is 9000 followed by 2000. *)
Theorem top_n_of_group_totals sort_values (Hs : sort_contract sort_values)
    (df : DataFrame) (n : nat) :
  first_n_in_order snd false n
    (create_top_states_chart sort_values df n)
    (groupby_sum state_name deposit_amount df)
  ∧ length (groupby_sum state_name deposit_amount df)
    = length (unique (map state_name df))
  ∧ first_n_in_order (λ d, d.2.1) false 10
      (top_districts sort_values df) (district_totals df)
  ∧ first_n_in_order (λ d, d.2.1) true 10
      (bottom_districts sort_values df) (district_totals df)
  ∧ length (district_totals df) = length (unique (map district_name df))
  ∧ create_top_states_chart sort_values example_table 2
    = [("Gujarat", 9000%Q); ("Odisha", 2000%Q)].
Proof.
  split; [by apply take_sorted_first_n|].
  split; [unfold groupby_sum; by rewrite length_fmap, length_groupby|].
  split; [by apply take_sorted_first_n|].
  split; [by apply take_sorted_first_n|].
  split; [unfold district_totals; by rewrite length_fmap, length_groupby|].
  unfold create_top_states_chart.
  replace (groupby_sum state_name deposit_amount example_table)
    with [("Bihar", 1000%Q); ("Gujarat", 9000%Q); ("Odisha", 2000%Q)]
    by (by vm_compute).
  set (totals := [("Bihar", 1000%Q); ("Gujarat", 9000%Q); ("Odisha", 2000%Q)]).
  assert (Hsorted : sort_values _ snd false totals
                    = [("Gujarat", 9000%Q); ("Odisha", 2000%Q); ("Bihar", 1000%Q)]).
  { apply (StronglySorted_unique_strong (in_order snd false)).
    - intros x1 x2 H1 H2. rewrite (sort_permutes _ Hs) in H1.
      unfold totals in H1. rewrite !elem_of_cons, elem_of_nil in H1, H2.
      unfold in_order.
      destruct H1 as [->|[->|[->|[]]]], H2 as [->|[->|[->|[]]]];
        unfold Qle; simpl; intros; (done || lia).
    - apply (sort_orders _ Hs).
    - repeat constructor; unfold in_order, Qle; simpl; lia.
    - rewrite (sort_permutes _ Hs). unfold totals.
      rewrite (Permutation_swap ("Bihar", 1000%Q)).
      constructor.
  }
  by rewrite Hsorted.
Qed.

(** The theorem at insertion sort, the example and N = 2. *)
Lemma top_n_of_group_totals_witness :
  sort_contract insertion_sorter
  ∧ create_top_states_chart insertion_sorter example_table 2
    = [("Gujarat", 9000%Q); ("Odisha", 2000%Q)].
Proof.
  split; [exact insertion_sorter_contract|].
  apply (top_n_of_group_totals insertion_sorter insertion_sorter_contract
           example_table 2).
Defined.

(** Two rows of one state make one group: asked for two, the chart has a
    single entry, although the table holds two rows. *)
Lemma top_n_counts_groups_not_rows :
  length shared_state_table = 2
  ∧ create_top_states_chart insertion_sorter shared_state_table 2
    = [("Bihar", 3000%Q)]
  ∧ length (create_top_states_chart insertion_sorter shared_state_table 2)
    ≠ min 2 (length shared_state_table).
Proof. by vm_compute. Qed.

(** ** Correlation matrix *)

Lemma co_deviation_comm x y : co_deviation x y = co_deviation y x.
Proof.
  unfold co_deviation. generalize (rmean x) (rmean y). intros mx my.
  revert y. induction x as [|a x IH]; intros [|b y]; simpl; try done.
  rewrite IH. ring.
Qed.

Lemma co_deviation_self_nonneg x : (0 <= co_deviation x x)%R.
Proof.
  unfold co_deviation. generalize (rmean x). intros m.
  induction x as [|a x IH]; simpl; [lra|].
  pose proof (Rle_0_sqr (a - m)) as Hsq. unfold Rsqr in Hsq. lra.
Qed.

Lemma pearson_comm x y : pearson x y = pearson y x.
Proof.
  unfold pearson.
  by rewrite (co_deviation_comm x y),
    (Rmult_comm (co_deviation x x) (co_deviation y y)).
Qed.

Lemma pearson_self x :
  co_deviation x x ≠ 0%R → pearson x x = Some 1%R.
Proof.
  intros Hx. unfold pearson.
  rewrite sqrt_square by apply co_deviation_self_nonneg.
  destruct (Req_dec_T (co_deviation x x) 0) as [|_]; [done|].
  f_equal. by field.
Qed.

Lemma entry_corr df columns i j :
  entry (corr df columns) i j =
    ci ← columns !! i; cj ← columns !! j;
    Some (pearson (column ci df) (column cj df)).
Proof.
  unfold entry, corr.
  change (map ?f columns) with (f <$> columns).
  rewrite list_lookup_fmap.
  destruct (columns !! i) as [ci|]; simpl; [|done].
  rewrite list_lookup_fmap. by destruct (columns !! j).
Qed.

(** C8. For a table none of whose selected columns is constant, the
    correlation matrix is symmetric and every diagonal entry is 1. *)
Theorem corr_symmetric_unit_diagonal (df : DataFrame)
    (columns : list (row → Q)) :
  non_degenerate df columns →
  (∀ i j, entry (create_correlation_heatmap df columns) i j
          = entry (create_correlation_heatmap df columns) j i)
  ∧ (∀ i, i < length columns →
          entry (create_correlation_heatmap df columns) i i = Some (Some 1%R)).
Proof.
  intros Hnd. unfold create_correlation_heatmap. split.
  - intros i j. rewrite !entry_corr.
    destruct (columns !! i) as [ci|], (columns !! j) as [cj|]; simpl; try done.
    by rewrite pearson_comm.
  - intros i Hi. rewrite entry_corr.
    destruct (lookup_lt_is_Some_2 columns i Hi) as [ci Hci].
    rewrite Hci. simpl.
    rewrite pearson_self; [done|].
    unfold non_degenerate in Hnd. rewrite Forall_forall in Hnd.
    apply Hnd. by eapply list_elem_of_lookup_2.
Qed.

(** The example's three numeric columns all vary. *)
Lemma corr_symmetric_unit_diagonal_witness :
  non_degenerate example_table numerical_features
  ∧ entry (create_correlation_heatmap example_table numerical_features) 0 0
    = Some (Some 1%R)
  ∧ entry (create_correlation_heatmap example_table numerical_features) 0 2
    = entry (create_correlation_heatmap example_table numerical_features) 2 0.
Proof.
  assert (H : non_degenerate example_table numerical_features).
  { unfold non_degenerate, numerical_features.
    repeat constructor;
      unfold co_deviation, rmean, column, rsum, Q2R; simpl; lra. }
  split; [exact H|].
  destruct (corr_symmetric_unit_diagonal example_table numerical_features H)
    as [Hsym Hdiag].
  split; [apply Hdiag; simpl; lia | apply Hsym].
Defined.

(** ** More on the category enumerations *)

Lemma ascii_compare_lt_trans a b c :
  Ascii.compare a b = Lt → Ascii.compare b c = Lt → Ascii.compare a c = Lt.
Proof.
  unfold Ascii.compare. rewrite !N.compare_lt_iff. lia.
Qed.

Lemma string_compare_lt_trans s1 s2 s3 :
  String.compare s1 s2 = Lt → String.compare s2 s3 = Lt →
  String.compare s1 s3 = Lt.
Proof.
  revert s2 s3. induction s1 as [|a s1 IH]; intros [|b s2] [|c s3];
    simpl; try done.
  destruct (Ascii.compare a b) eqn:Hab; try done;
    destruct (Ascii.compare b c) eqn:Hbc; try done.
  - apply Ascii.compare_eq_iff in Hab, Hbc. subst.
    rewrite (proj2 (N.compare_eq_iff _ _) eq_refl : Ascii.compare c c = Eq).
    apply IH.
  - apply Ascii.compare_eq_iff in Hab. subst. by rewrite Hbc.
  - apply Ascii.compare_eq_iff in Hbc. subst. by rewrite Hab.
  - by rewrite (ascii_compare_lt_trans a b c).
Qed.

Lemma string_leb_trans s1 s2 s3 :
  (s1 <=? s2)%string = true → (s2 <=? s3)%string = true →
  (s1 <=? s3)%string = true.
Proof.
  unfold String.leb.
  destruct (String.compare s1 s2) eqn:H12; try done;
    destruct (String.compare s2 s3) eqn:H23; try done; intros _ _.
  - apply String.compare_eq_iff in H12. subst. by rewrite H23.
  - apply String.compare_eq_iff in H12. subst. by rewrite H23.
  - apply String.compare_eq_iff in H23. subst. by rewrite H12.
  - by rewrite (string_compare_lt_trans s1 s2 s3).
Qed.

Lemma insert_sorted_ordered s l :
  StronglySorted (λ a b, (a <=? b)%string = true) l →
  StronglySorted (λ a b, (a <=? b)%string = true) (insert_sorted s l).
Proof.
  induction 1 as [|x l Hl IH Hx]; simpl; [repeat constructor|].
  destruct (s <=? x)%string eqn:Hsx.
  - constructor; [by constructor|]. constructor; [done|].
    eapply Forall_impl; [exact Hx|]. intros y Hy.
    by apply string_leb_trans with x.
  - constructor; [done|].
    rewrite insert_sorted_Permutation. constructor; [|done].
    destruct (String.leb_total s x) as [H|H]; [congruence|done].
Qed.

Lemma sorted_ordered l :
  StronglySorted (λ a b, (a <=? b)%string = true) (sorted l).
Proof.
  induction l as [|x l IH]; simpl; [constructor|].
  by apply insert_sorted_ordered.
Qed.

(** The labels of a column, as the enumerations list them: in ascending
    order, none twice, and exactly those that occur. *)
Lemma sorted_unique_spec (l : list string) :
  StronglySorted (λ a b, (a <=? b)%string = true) (sorted (unique l))
  ∧ NoDup (sorted (unique l))
  ∧ ∀ x, x ∈ sorted (unique l) ↔ x ∈ l.
Proof.
  split; [apply sorted_ordered|]. split.
  - rewrite sorted_Permutation. apply NoDup_unique.
  - intros x. by rewrite sorted_Permutation, elem_of_unique.
Qed.

(** X1. With the table loaded, the region and state lists are in ascending
    order, hold no label twice, and hold exactly the labels that occur in
    the table. *)
Theorem enumerations_sorted_distinct (fs : artifacts) (df : DataFrame) :
  cleaned_data_csv fs = Readable df →
  ∃ regions states,
    result (get_regions fs) = Done regions
    ∧ result (get_states fs) = Done states
    ∧ StronglySorted (λ a b, (a <=? b)%string = true) regions
    ∧ StronglySorted (λ a b, (a <=? b)%string = true) states
    ∧ NoDup regions ∧ NoDup states
    ∧ (∀ x, x ∈ regions ↔ ∃ r, r ∈ df ∧ region r = x)
    ∧ (∀ x, x ∈ states ↔ ∃ r, r ∈ df ∧ state_name r = x).
Proof.
  intros Hfs.
  exists (sorted (unique (map region df))),
         (sorted (unique (map state_name df))).
  unfold get_regions, get_states, load_cleaned_data, load_or_none.
  rewrite Hfs.
  destruct (sorted_unique_spec (map region df)) as (Hr1 & Hr2 & Hr3).
  destruct (sorted_unique_spec (map state_name df)) as (Hs1 & Hs2 & Hs3).
  repeat split; try done.
  - intros Hx. apply Hr3, list_elem_of_fmap in Hx as (r & -> & Hr). eauto.
  - intros (r & Hr & <-). apply Hr3. by apply list_elem_of_fmap_2.
  - intros Hx. apply Hs3, list_elem_of_fmap in Hx as (r & -> & Hr). eauto.
  - intros (r & Hr & <-). apply Hs3. by apply list_elem_of_fmap_2.
Qed.

(** The enumerations of the example table. *)
Lemma enumerations_sorted_distinct_witness :
  cleaned_data_csv (only_cleaned example_table) = Readable example_table
  ∧ ∃ regions states,
      result (get_regions (only_cleaned example_table)) = Done regions
      ∧ result (get_states (only_cleaned example_table)) = Done states
      ∧ StronglySorted (λ a b, (a <=? b)%string = true) regions
      ∧ StronglySorted (λ a b, (a <=? b)%string = true) states
      ∧ NoDup regions ∧ NoDup states
      ∧ (∀ x, x ∈ regions ↔ ∃ r, r ∈ example_table ∧ region r = x)
      ∧ (∀ x, x ∈ states ↔ ∃ r, r ∈ example_table ∧ state_name r = x).
Proof.
  split; [reflexivity|].
  exact (enumerations_sorted_distinct (only_cleaned example_table)
           example_table eq_refl).
Defined.

(** X2. [get_districts] with a state lists exactly the districts of the
    rows of that state, in ascending order and once each, so it is part of
    the unrestricted list and empty for a state the table lacks; the empty
    string, like [None], restricts nothing. *)
Theorem get_districts_by_state (fs : artifacts) (df : DataFrame)
    (state : string) :
  cleaned_data_csv fs = Readable df →
  ∃ every chosen,
    result (get_districts fs None) = Done every
    ∧ result (get_districts fs (Some state)) = Done chosen
    ∧ chosen ⊆ every
    ∧ StronglySorted (λ a b, (a <=? b)%string = true) chosen
    ∧ NoDup chosen
    ∧ (state ≠ "" →
         ∀ d, d ∈ chosen ↔
              ∃ r, r ∈ df ∧ state_name r = state ∧ district_name r = d)
    ∧ (state ≠ "" → state ∉ map state_name df → chosen = [])
    ∧ (state = "" → chosen = every).
Proof.
  intros Hfs.
  unfold get_districts, load_cleaned_data, load_or_none. rewrite Hfs. cbn.
  assert (Hin : ∀ d, d ∈ sorted (unique (map district_name
                  (filter (λ r, Some (state_name r) = Some state) df)))
                ↔ ∃ r, r ∈ df ∧ state_name r = state ∧ district_name r = d).
  { intros d. rewrite (proj2 (proj2 (sorted_unique_spec _))).
    rewrite list_elem_of_fmap. split.
    - intros (r & -> & [Hr1 Hr2]%list_elem_of_filter).
      exists r. split; [done|]. split; [congruence|done].
    - intros (r & Hr & Hs & <-). exists r. split; [done|].
      apply list_elem_of_filter. split; [congruence|done]. }
  destruct (decide (state = "")) as [->|Hne]; cbn.
  - eexists _, _. split; [done|]. split; [done|].
    destruct (sorted_unique_spec (map district_name df)) as (H1 & H2 & _).
    repeat split; try done.
  - destruct (decide (state = "")) as [|_]; [done|].
    eexists _, _. split; [done|]. split; [done|].
    destruct (sorted_unique_spec (map district_name
                (filter (λ r, Some (state_name r) = Some state) df)))
      as (H1 & H2 & _).
    split; [|split; [done|split; [done|split; [done|split; [|done]]]]].
    + intros d (r & Hr & _ & <-)%Hin.
      apply (proj2 (proj2 (sorted_unique_spec _))).
      by apply list_elem_of_fmap_2.
    + intros _ Hnot. apply elem_of_nil_inv. intros d (r & Hr & <- & _)%Hin.
      apply Hnot. by apply list_elem_of_fmap_2.
Qed.

(** The districts of Bihar in the example. *)
Lemma get_districts_by_state_witness :
  cleaned_data_csv (only_cleaned example_table) = Readable example_table
  ∧ ∃ every chosen,
      result (get_districts (only_cleaned example_table) None) = Done every
      ∧ result (get_districts (only_cleaned example_table) (Some "Bihar"))
        = Done chosen
      ∧ chosen ⊆ every
      ∧ StronglySorted (λ a b, (a <=? b)%string = true) chosen
      ∧ NoDup chosen
      ∧ ("Bihar" ≠ "" →
           ∀ d, d ∈ chosen ↔
                ∃ r, r ∈ example_table ∧ state_name r = "Bihar"
                     ∧ district_name r = d)
      ∧ ("Bihar" ≠ "" → "Bihar" ∉ map state_name example_table → chosen = [])
      ∧ ("Bihar" = "" → chosen = every).
Proof.
  split; [reflexivity|].
  exact (get_districts_by_state (only_cleaned example_table) example_table
           "Bihar" eq_refl).
Defined.

(** ** More on filtering *)

Lemma filter_data_twice df pg rg st pg' rg' st' :
  filter_data (filter_data df pg rg st) pg' rg' st'
  = filter (λ r, matches_criteria pg' rg' st' r ∧ matches_criteria pg rg st r)
      df.
Proof. by rewrite !filter_data_unfold, list_filter_filter. Qed.

(** X3. Filters compose: filtering a filtered table gives the rows that
    meet both sets of criteria, so the order of two filterings does not
    matter, filtering twice by the same criteria changes nothing, and
    applying the three criteria one after the other equals applying them
    together. *)
Theorem filter_data_composes df pg rg st pg' rg' st' :
  filter_data (filter_data df pg rg st) pg' rg' st'
  = filter_data (filter_data df pg' rg' st') pg rg st
  ∧ filter_data (filter_data df pg rg st) pg rg st = filter_data df pg rg st
  ∧ filter_data (filter_data (filter_data df pg None None) None rg None)
      None None st
    = filter_data df pg rg st
  ∧ filter_data df None None None = df.
Proof.
  split; [|split; [|split]].
  - rewrite !filter_data_twice. apply list_filter_iff. tauto.
  - rewrite filter_data_twice, filter_data_unfold.
    apply list_filter_iff. tauto.
  - rewrite !filter_data_unfold, !list_filter_filter.
    apply list_filter_iff. intros r. unfold matches_criteria.
    change (is_set None) with false. intuition congruence.
  - done.
Qed.

(** X4. On the EDA page, picking any single offered option while the
    other two boxes stay at "All" never empties a table that has rows. *)
Theorem single_filter_keeps_rows (df : DataFrame) (choice : string) :
  df ≠ [] →
  (choice ∈ population_options df →
     eda_filtered_df df choice "All" "All" ≠ [])
  ∧ (choice ∈ region_options df →
     eda_filtered_df df "All" choice "All" ≠ [])
  ∧ (choice ∈ state_options df →
     eda_filtered_df df "All" "All" choice ≠ []).
Proof.
  intros Hdf.
  assert (Hkey : ∀ (col : row → string) c,
            c ∈ "All" :: map col df →
            filter (λ r, is_set (none_if_all c) = true →
                         Some (col r) = none_if_all c) df ≠ []).
  { intros col c Hc. unfold none_if_all.
    destruct (decide (c = "All")) as [->|Hall].
    - destruct df as [|r df']; [done|].
      rewrite filter_cons_True; [done|]. done.
    - apply elem_of_cons in Hc as [?|Hc]; [done|].
      apply list_elem_of_fmap in Hc as (r & -> & Hr).
      intros Hnil.
      assert (r ∈ filter (λ r0, is_set (Some (col r)) = true →
                Some (col r0) = Some (col r)) df) as Hin
        by (by apply list_elem_of_filter).
      rewrite Hnil in Hin. by apply elem_of_nil in Hin. }
  unfold eda_filtered_df, population_options, region_options, state_options.
  rewrite !filter_data_unfold.
  split; [|split]; intros Hc.
  - rewrite (list_filter_iff _
               (λ r, is_set (none_if_all choice) = true →
                     Some (population_group r) = none_if_all choice)).
    + apply Hkey. apply elem_of_cons in Hc as [->|Hc]; [left|right].
      by apply elem_of_unique.
    + intros r. unfold matches_criteria.
      change (is_set (none_if_all "All")) with false. intuition congruence.
  - rewrite (list_filter_iff _
               (λ r, is_set (none_if_all choice) = true →
                     Some (region r) = none_if_all choice)).
    + apply Hkey. apply elem_of_cons in Hc as [->|Hc]; [left|right].
      by apply (sorted_unique_spec (map region df)).
    + intros r. unfold matches_criteria.
      change (is_set (none_if_all "All")) with false. intuition congruence.
  - rewrite (list_filter_iff _
               (λ r, is_set (none_if_all choice) = true →
                     Some (state_name r) = none_if_all choice)).
    + apply Hkey. apply elem_of_cons in Hc as [->|Hc]; [left|right].
      by apply (sorted_unique_spec (map state_name df)).
    + intros r. unfold matches_criteria.
      change (is_set (none_if_all "All")) with false. intuition congruence.
Qed.

(** Picking Urban in the example keeps its one Urban row. *)
Lemma single_filter_keeps_rows_witness :
  example_table ≠ []
  ∧ "Urban" ∈ population_options example_table
  ∧ eda_filtered_df example_table "Urban" "All" "All" ≠ [].
Proof.
  assert (H1 : example_table ≠ []) by discriminate.
  assert (H2 : "Urban" ∈ population_options example_table)
    by (vm_compute; repeat constructor).
  split; [exact H1|]. split; [exact H2|].
  exact (proj1 (single_filter_keeps_rows example_table "Urban" H1) H2).
Defined.

(** Two options together can leave nothing: no Rural row lies in the West. *)
Example two_filters_can_empty :
  "Rural" ∈ population_options example_table
  ∧ "West" ∈ region_options example_table
  ∧ eda_filtered_df example_table "Rural" "West" "All" = [].
Proof. split; [|split]; vm_compute; repeat constructor. Qed.

(** ** More on the summary statistics *)



Lemma nunique_mono l1 l2 : l1 ⊆ l2 → (nunique l1 ≤ nunique l2)%nat.
Proof.
  intros Hsub. unfold nunique. apply subseteq_size.
  intros x. rewrite !elem_of_list_to_set. apply Hsub.
Qed.

Lemma col_sum_sublist col (l1 l2 : DataFrame) :
  l1 `sublist_of` l2 → Forall (λ r, (0 <= col r)%Q) l2 →
  (col_sum col l1 <= col_sum col l2)%Q.
Proof.
  induction 1 as [|x l1 l2 Hsub IH|x l1 l2 Hsub IH]; intros Hpos; simpl.
  - apply Qle_refl.
  - apply Forall_cons in Hpos as [_ Hpos].
    apply Qplus_le_compat; [apply Qle_refl|by apply IH].
  - apply Forall_cons in Hpos as [Hx Hpos].
    rewrite <- (Qplus_0_l (col_sum col l1)).
    apply Qplus_le_compat; [done|by apply IH].
Qed.



(** X6. Filtering never raises a count: the filtered table has no more
    records, states or districts than the table it came from; and when no
    cell is negative, no larger deposit, office or account total. *)
Theorem summary_stats_of_filtered (df : DataFrame) pg rg st :
  (total_records (get_summary_stats (filter_data df pg rg st))
     ≤ total_records (get_summary_stats df))%nat
  ∧ (unique_states (get_summary_stats (filter_data df pg rg st))
     ≤ unique_states (get_summary_stats df))%nat
  ∧ (unique_districts (get_summary_stats (filter_data df pg rg st))
     ≤ unique_districts (get_summary_stats df))%nat
  ∧ (Forall (λ r, (0 <= deposit_amount r)%Q ∧ (0 <= no_of_offices r)%Q
                  ∧ (0 <= no_of_accounts r)%Q) df →
     (total_deposits (get_summary_stats (filter_data df pg rg st))
        <= total_deposits (get_summary_stats df))%Q
     ∧ (total_offices (get_summary_stats (filter_data df pg rg st))
        <= total_offices (get_summary_stats df))%Q
     ∧ (total_accounts (get_summary_stats (filter_data df pg rg st))
        <= total_accounts (get_summary_stats df))%Q).
Proof.
  assert (Hsub : filter_data df pg rg st `sublist_of` df)
    by (rewrite filter_data_unfold; apply sublist_filter).
  unfold get_summary_stats. simpl.
  split; [by apply sublist_length|].
  split; [apply nunique_mono; intros x (r & -> & Hr)%list_elem_of_fmap;
          apply list_elem_of_fmap_2; by eapply sublist_subseteq|].
  split; [apply nunique_mono; intros x (r & -> & Hr)%list_elem_of_fmap;
          apply list_elem_of_fmap_2; by eapply sublist_subseteq|].
  intros Hpos.
  repeat split; apply col_sum_sublist; try done;
    eapply Forall_impl; try exact Hpos; simpl; tauto.
Qed.

(** The example has no negative cell; its Rural part sums to less. *)
Lemma summary_stats_of_filtered_witness :
  Forall (λ r, (0 <= deposit_amount r)%Q ∧ (0 <= no_of_offices r)%Q
               ∧ (0 <= no_of_accounts r)%Q) example_table
  ∧ (total_deposits (get_summary_stats
       (filter_data example_table (Some "Rural") None None))
     <= total_deposits (get_summary_stats example_table))%Q.
Proof.
  assert (H : Forall (λ r, (0 <= deposit_amount r)%Q ∧ (0 <= no_of_offices r)%Q
                           ∧ (0 <= no_of_accounts r)%Q) example_table).
  { unfold example_table. repeat constructor; simpl; unfold Qle; simpl; lia. }
  split; [exact H|].
  exact (proj1 (proj2 (proj2 (proj2
    (summary_stats_of_filtered example_table (Some "Rural") None None))) H)).
Defined.

(** ** The narrative of the Insights page *)

(** X7. The Insights page shows the narrative exactly when its file can be
    read and is not empty; in every other case, an existing but empty file
    included, it warns that the narrative file was not found. *)
Theorem narrative_shown_iff_nonempty (fs : artifacts) :
  (Render "Complete Data Storytelling Narrative" ∈ effects (page_insights fs)
   ↔ ∃ text, data_storytelling_insights_txt fs = Readable text ∧ text ≠ "")
  ∧ (StWarning "Narrative file not found. Please ensure data_storytelling_insights.txt exists in reports/model_results/"
       ∈ effects (page_insights fs)
     ↔ ¬ ∃ text, data_storytelling_insights_txt fs = Readable text ∧ text ≠ "").
Proof.
  assert (Hin : ∀ (P : Prop) (e : effect) (l : list effect),
            e ∈ l → P → (e ∈ l ↔ P))
    by (intros P e l H1 H2; split; auto).
  assert (Hout : ∀ (P : Prop) (e : effect) (l : list effect),
            e ∉ l → ¬ P → (e ∈ l ↔ P))
    by (intros P e l H1 H2; split; intros; contradiction).
  unfold page_insights, load_insights_narrative, load_cleaned_data,
    load_or_none.
  destruct (data_storytelling_insights_txt fs) as [text| | |] eqn:Hn,
    (cleaned_data_csv fs); cbn;
    try (destruct (decide (text = "")) as [Heq|Hne]; cbn);
    (split;
     [ first [ apply Hin; [rewrite !elem_of_cons; tauto | by eauto]
             | apply Hout;
               [ rewrite !elem_of_cons, elem_of_nil;
                 intros Hor; repeat destruct Hor as [Hor|Hor]; done
               | intros (t & [= <-] & Ht) || intros (t & [=] & _); done ] ]
     | first [ apply Hin;
               [ rewrite !elem_of_cons; tauto
               | intros (t & [= <-] & Ht) || intros (t & [=] & _); done ]
             | apply Hout;
               [ rewrite !elem_of_cons, elem_of_nil;
                 intros Hor; repeat destruct Hor as [Hor|Hor]; done
               | intros Hno; apply Hno; by eauto ] ] ]).
Qed.

(** ** Groups *)

(** Every group holds at least one row, only rows of its own key, and
    its rows in source order. *)
Lemma groupby_groups key (df : DataFrame) k g :
  (k, g) ∈ groupby key df →
  g ≠ [] ∧ g = filter (λ r, key r = k) df ∧ k ∈ map key df.
Proof.
  unfold groupby. rewrite list_elem_of_fmap.
  intros (k' & [= -> ->] & Hk).
  rewrite sorted_Permutation, elem_of_unique in Hk.
  split; [|done].
  apply list_elem_of_fmap in Hk as (r & -> & Hr).
  intros Hnil.
  assert (r ∈ filter (λ r0, key r0 = key r) df) as Hin
    by (by apply list_elem_of_filter).
  rewrite Hnil in Hin. by apply elem_of_nil in Hin.
Qed.

Lemma groupby_keys key (df : DataFrame) :
  (groupby key df).*1 = sorted (unique (map key df)).
Proof.
  unfold groupby. rewrite <- list_fmap_compose.
  generalize (sorted (unique (map key df))).
  intros l. induction l as [|a l IH]; simpl; [done|by f_equal].
Qed.

(** Summing one selected term over distinct keys. *)
Lemma qsum_indicator (ks : list string) (k0 : string) (c : Q) :
  NoDup ks → k0 ∈ ks →
  (qsum (map (λ k, if decide (k0 = k) then c else 0%Q) ks) == c)%Q.
Proof.
  induction 1 as [|k ks Hk Hnd IH]; intros Hin; [by apply elem_of_nil in Hin|].
  simpl. apply elem_of_cons in Hin as [->|Hin].
  - rewrite decide_True by done.
    assert (Hzero : (qsum (map (λ k', if decide (k = k') then c else 0%Q) ks)
                     == 0)%Q).
    { clear IH Hnd. induction ks as [|k' ks IH]; simpl; [done|].
      rewrite decide_False by (intros ->; apply Hk; left).
      rewrite IH; [ring|]. intros Hin. apply Hk. by right. }
    rewrite Hzero. ring.
  - rewrite decide_False by (intros ->; done).
    rewrite IH by done. ring.
Qed.

Lemma qsum_plus {A} (f g : A → Q) (l : list A) :
  (qsum (map (λ x, f x + g x) l) == qsum (map f l) + qsum (map g l))%Q.
Proof.
  induction l as [|x l IH]; simpl; [ring|]. rewrite IH. ring.
Qed.

Lemma qsum_ext {A} (f g : A → Q) (l : list A) :
  (∀ x, (f x == g x)%Q) → (qsum (map f l) == qsum (map g l))%Q.
Proof.
  intros Hfg. induction l as [|x l IH]; simpl; [done|]. by rewrite IH, Hfg.
Qed.

(** Sums over the groups of any duplicate-free key list covering the
    table add up to the sum over the table. *)
Lemma col_sum_by_keys key col (ks : list string) (df : DataFrame) :
  NoDup ks → (∀ r, r ∈ df → key r ∈ ks) →
  (qsum (map (λ k, col_sum col (filter (λ r, key r = k) df)) ks)
   == col_sum col df)%Q.
Proof.
  intros Hnd. induction df as [|r df IH]; intros Hcover.
  - clear. induction ks as [|k ks IHk]; simpl in *; [done|].
    rewrite IHk. ring.
  - rewrite (qsum_ext _ (λ k, (if decide (key r = k) then col r else 0)
                              + col_sum col (filter (λ r0, key r0 = k) df))%Q).
    + rewrite qsum_plus, qsum_indicator, IH; try done.
      * intros r' Hr'. apply Hcover. by right.
      * apply Hcover. left.
    + intros k. rewrite filter_cons.
      destruct (decide (key r = k)); simpl; ring.
Qed.

(** X8. The per-group totals of a grouped sum add up to the column's
    total over the whole table, and there is one total per distinct key:
    the slices of the regional pie chart make up all deposits. *)
Theorem groupby_sum_adds_up key col (df : DataFrame) :
  (qsum (groupby_sum key col df).*2 == col_sum col df)%Q
  ∧ (groupby_sum key col df).*1 = sorted (unique (map key df))
  ∧ NoDup (groupby_sum key col df).*1.
Proof.
  assert (Hkeys : (groupby_sum key col df).*1 = sorted (unique (map key df))).
  { rewrite groupby_sum_unfold, <- list_fmap_compose.
    generalize (sorted (unique (map key df))).
    intros l. induction l as [|a l IH]; simpl; [done|by f_equal]. }
  split; [|split; [done|]].
  - rewrite groupby_sum_unfold, <- list_fmap_compose.
    apply (col_sum_by_keys key col).
    + apply (sorted_unique_spec (map key df)).
    + intros r Hr. apply (sorted_unique_spec (map key df)).
      by apply list_elem_of_fmap_2.
  - rewrite Hkeys. apply (sorted_unique_spec (map key df)).
Qed.

(** ** Frequencies and regional rows *)

Lemma count_indicator (ks : list string) (k0 : string) :
  NoDup ks → k0 ∈ ks →
  sum_list (map (λ k, if decide (k0 = k) then 1 else 0) ks) = 1.
Proof.
  induction 1 as [|k ks Hk Hnd IH]; intros Hin; [by apply elem_of_nil in Hin|].
  simpl. apply elem_of_cons in Hin as [->|Hin].
  - rewrite decide_True by done.
    assert (sum_list (map (λ k', if decide (k = k') then 1 else 0) ks) = 0)
      as ->; [|done].
    clear IH Hnd. induction ks as [|k' ks IH]; simpl; [done|].
    rewrite decide_False by (intros ->; apply Hk; left).
    rewrite IH; [done|]. intros Hin. apply Hk. by right.
  - rewrite decide_False by (intros ->; done). by rewrite IH.
Qed.

Lemma count_by_keys (ks l : list string) :
  NoDup ks → (∀ x, x ∈ l → x ∈ ks) →
  sum_list (map (λ k, length (filter (λ x, x = k) l)) ks) = length l.
Proof.
  intros Hnd. induction l as [|x l IH]; intros Hcover.
  - simpl. clear. induction ks as [|k ks IHk]; simpl; [done|by rewrite IHk].
  - assert (Hstep : ∀ js,
              sum_list (map (λ k, length (filter (λ y, y = k) (x :: l))) js)
              = sum_list (map (λ k, if decide (x = k) then 1 else 0) js)
                + sum_list (map (λ k, length (filter (λ y, y = k) l)) js)).
    { intros js. induction js as [|j js IHj]; simpl; [done|].
      rewrite IHj, filter_cons. destruct (decide (x = j)); simpl; lia. }
    rewrite Hstep, count_indicator, IH; try done.
    + intros y Hy. apply Hcover. by right.
    + apply Hcover. left.
Qed.

Lemma length_filter_fmap {A} (f : A → string) (k : string) (l : list A) :
  length (filter (λ x, x = k) (map f l)) = length (filter (λ a, f a = k) l).
Proof.
  induction l as [|a l IH]; simpl; [done|].
  rewrite !filter_cons. destruct (decide (f a = k)); simpl; by rewrite IH.
Qed.

Lemma StronglySorted_weaken {A} (R1 R2 : relation A) (l : list A) :
  (∀ a b, R1 a b → R2 a b) → StronglySorted R1 l → StronglySorted R2 l.
Proof.
  intros HR. induction 1 as [|a l Hl IH Ha]; constructor; [done|].
  eapply Forall_impl; [exact Ha|]. auto.
Qed.

(** X9. The population-group chart has one bar per group label of the
    table, whose height is the number of rows carrying the label (so at
    least one); the heights add up to the number of rows and never
    increase from one bar to the next. *)
Theorem population_chart_counts sort_values (Hs : sort_contract sort_values)
    (df : DataFrame) :
  NoDup (create_population_group_chart sort_values df).*1
  ∧ (∀ k n, (k, n) ∈ create_population_group_chart sort_values df ↔
            k ∈ map population_group df
            ∧ n = length (filter (λ r, population_group r = k) df))
  ∧ (∀ k n, (k, n) ∈ create_population_group_chart sort_values df →
            (1 ≤ n)%nat)
  ∧ sum_list (create_population_group_chart sort_values df).*2 = length df
  ∧ StronglySorted (λ a b, (b.2 ≤ a.2)%nat)
      (create_population_group_chart sort_values df).
Proof.
  unfold create_population_group_chart, value_counts.
  set (l := map population_group df).
  set (base := map (λ k, (k, length (filter (λ x, x = k) l))) (unique l)).
  pose proof (sort_permutes _ Hs _ (λ p : string * nat, inject_Z (Z.of_nat p.2))
                false base) as Hperm.
  assert (Hfst : base.*1 = unique l).
  { unfold base. rewrite <- list_fmap_compose.
    generalize (unique l). intros ks.
    induction ks as [|a ks IH]; simpl; [done|by f_equal]. }
  assert (Hmem : ∀ k n, (k, n) ∈ base ↔
            k ∈ l ∧ n = length (filter (λ r, population_group r = k) df)).
  { intros k n. unfold base. rewrite list_elem_of_fmap. split.
    - intros (k' & [= -> ->] & Hk). rewrite elem_of_unique in Hk.
      split; [done|]. apply length_filter_fmap.
    - intros [Hk ->]. exists k. rewrite elem_of_unique.
      split; [|done]. f_equal. symmetry. apply length_filter_fmap. }
  split; [|split; [|split; [|split]]].
  - rewrite Hperm, Hfst. apply NoDup_unique.
  - intros k n. by rewrite Hperm.
  - intros k n. rewrite Hperm. intros [Hk ->]%Hmem.
    apply list_elem_of_fmap in Hk as (r & -> & Hr).
    assert (r ∈ filter (λ r0, population_group r0 = population_group r) df)
      as Hin by (by apply list_elem_of_filter).
    destruct (filter _ df); [by apply elem_of_nil in Hin|simpl; lia].
  - rewrite Hperm. unfold base. rewrite <- list_fmap_compose.
    rewrite <- (length_fmap population_group df). fold l.
    apply count_by_keys; [apply NoDup_unique|].
    intros x Hx. by apply elem_of_unique.
  - eapply StronglySorted_weaken; [|apply (sort_orders _ Hs)].
    intros a b Hb. unfold in_order in Hb. rewrite <- Zle_Qle in Hb. lia.
Qed.

(** The chart of the example under insertion sort. *)
Lemma population_chart_counts_witness :
  sort_contract insertion_sorter
  ∧ create_population_group_chart insertion_sorter example_table
    = [("Rural", 2); ("Urban", 1)]
  ∧ sum_list (create_population_group_chart insertion_sorter example_table).*2
    = length example_table.
Proof.
  split; [exact insertion_sorter_contract|].
  split; [by vm_compute|].
  exact (proj1 (proj2 (proj2 (proj2
    (population_chart_counts insertion_sorter insertion_sorter_contract
       example_table))))).
Defined.




(** ** Model charts *)

(** X11. Every marker of the R²-versus-time scatter has size at least 5,
    whatever the model's R²: a model with R² of zero or below gets exactly
    5, any other gets 100 R² + 5; there is one marker per model. *)
Theorem marker_size_positive (df : list comparison_row) :
  length (marker_size df) = length df
  ∧ Forall (λ s, (5 <= s)%Q) (marker_size df)
  ∧ ∀ i m, df !! i = Some m →
      ∃ s, marker_size df !! i = Some s
        ∧ ((test_r2 m <= 0)%Q → (s == 5)%Q)
        ∧ ((0 <= test_r2 m)%Q → (s == test_r2 m * 100 + 5)%Q).
Proof.
  unfold marker_size. split; [apply length_fmap|]. split.
  - apply Forall_fmap, Forall_true. intros m. simpl.
    pose proof (Q.le_max_r (test_r2 m) 0) as Hmax.
    rewrite <- (Qplus_0_l 5) at 1.
    apply Qplus_le_compat; [|apply Qle_refl].
    rewrite <- (Qmult_0_l 100). by apply Qmult_le_compat_r.
  - intros i m Hi. eexists. split.
    + change (map ?f df) with (f <$> df).
      by rewrite list_lookup_fmap, Hi.
    + split; intros Hr.
      * rewrite (Q.max_r _ _ Hr). ring.
      * by rewrite (Q.max_l _ _ Hr).
Qed.

(** A model with a negative R² still gets a marker of size 5. *)
Lemma marker_size_positive_witness :
  ∃ s, marker_size [mkComparison "linear" (-(1 # 2)) 0 0 0] !! 0 = Some s
    ∧ (s == 5)%Q.
Proof.
  destruct (proj2 (proj2 (marker_size_positive
              [mkComparison "linear" (-(1 # 2)) 0 0 0])) 0
              (mkComparison "linear" (-(1 # 2)) 0 0 0) eq_refl)
    as (s & Hs & Hneg & _).
  exists s. split; [exact Hs|]. apply Hneg. simpl. discriminate.
Defined.




(** When the file is not in that order the chart misses better models:
    here the sixteenth row beats every row shown. *)
Example model_chart_follows_file_order :
  let df := reverse ranked_models in
  ∃ omitted, omitted ∈ drop 15 df
    ∧ Forall (λ shown, (shown.1.2 < test_r2 omitted)%Q)
        (create_model_comparison_chart df).
Proof.
  exists (mkComparison "model" (inject_Z 16 / 20) 0 0 0). split.
  - vm_compute. repeat constructor.
  - vm_compute. repeat constructor.
Qed.

(** ** The diagonal of the actual-versus-predicted plot *)

Lemma foldr_Qmin_le x l :
  (foldr Qmin x l <= x)%Q ∧ Forall (λ v, (foldr Qmin x l <= v)%Q) l.
Proof.
  induction l as [|y l [IH1 IH2]]; simpl; [split; [apply Qle_refl|constructor]|].
  split.
  - eapply Qle_trans; [apply Q.le_min_r|exact IH1].
  - constructor; [apply Q.le_min_l|].
    eapply Forall_impl; [exact IH2|]. intros v Hv.
    eapply Qle_trans; [apply Q.le_min_r|exact Hv].
Qed.

Lemma foldr_Qmax_ge x l :
  (x <= foldr Qmax x l)%Q ∧ Forall (λ v, (v <= foldr Qmax x l)%Q) l.
Proof.
  induction l as [|y l [IH1 IH2]]; simpl; [split; [apply Qle_refl|constructor]|].
  split.
  - eapply Qle_trans; [exact IH1|apply Q.le_max_r].
  - constructor; [apply Q.le_max_l|].
    eapply Forall_impl; [exact IH2|]. intros v Hv.
    eapply Qle_trans; [exact Hv|apply Q.le_max_r].
Qed.

Lemma series_min_lower l :
  l ≠ [] → ∃ lo, series_min l = Fin lo ∧ Forall (λ v, (lo <= v)%Q) l.
Proof.
  destruct l as [|x l]; [done|]. intros _. eexists. split; [done|].
  destruct (foldr_Qmin_le x l). by constructor.
Qed.

Lemma series_max_upper l :
  l ≠ [] → ∃ hi, series_max l = Fin hi ∧ Forall (λ v, (v <= hi)%Q) l.
Proof.
  destruct l as [|x l]; [done|]. intros _. eexists. split; [done|].
  destruct (foldr_Qmax_ge x l). by constructor.
Qed.

(** X13. For two non-empty series the "perfect prediction" line runs
    between two ordinary numbers that enclose every actual and every
    predicted value, so no point of the scatter lies outside its span. *)
Theorem perfect_line_spans_points (y_true y_pred : list Q) :
  y_true ≠ [] → y_pred ≠ [] →
  ∃ lo hi,
    create_actual_vs_predicted y_true y_pred = (Fin lo, Fin hi)
    ∧ Forall (λ v, (lo <= v <= hi)%Q) (y_true ++ y_pred).
Proof.
  intros Ht Hp.
  destruct (series_min_lower y_true Ht) as (lt & Hlt & Hlt').
  destruct (series_min_lower y_pred Hp) as (lp & Hlp & Hlp').
  destruct (series_max_upper y_true Ht) as (ht & Hht & Hht').
  destruct (series_max_upper y_pred Hp) as (hp & Hhp & Hhp').
  unfold create_actual_vs_predicted, py_min, py_max.
  rewrite Hlt, Hlp, Hht, Hhp. simpl.
  assert (Hspan : ∀ lo hi,
            (lo <= lt)%Q → (lo <= lp)%Q → (ht <= hi)%Q → (hp <= hi)%Q →
            Forall (λ v, (lo <= v <= hi)%Q) (y_true ++ y_pred)).
  { intros lo hi H1 H2 H3 H4. apply Forall_app. split.
    - eapply Forall_impl; [apply Forall_and; split; [exact Hlt'|exact Hht']|].
      simpl. intros v [Hv1 Hv2].
      split; [by apply Qle_trans with lt|by apply Qle_trans with ht].
    - eapply Forall_impl; [apply Forall_and; split; [exact Hlp'|exact Hhp']|].
      simpl. intros v [Hv1 Hv2].
      split; [by apply Qle_trans with lp|by apply Qle_trans with hp]. }
  destruct (Qlt_le_dec lp lt) as [Hl|Hl], (Qlt_le_dec ht hp) as [Hh|Hh];
    eexists _, _; (split; [reflexivity|]); apply Hspan;
    auto using Qle_refl, Qlt_le_weak.
Qed.

(** Two actual and two predicted values. *)
Lemma perfect_line_spans_points_witness :
  ∃ lo hi,
    create_actual_vs_predicted [3%Q; 7%Q] [5%Q; 2%Q] = (Fin lo, Fin hi)
    ∧ Forall (λ v, (lo <= v <= hi)%Q) ([3%Q; 7%Q] ++ [5%Q; 2%Q]).
Proof.
  apply perfect_line_spans_points; discriminate.
Defined.

(** ** Feature importance *)

Lemma length_tail_n {A} n (l : list A) : length (tail_n n l) = min n (length l).
Proof. unfold tail_n. rewrite length_drop. lia. Qed.

(** X14. Given as many importances as features, the importance chart
    shows the fifteen largest importances (all of them if there are
    fewer), in non-decreasing order, each with its own feature and none
    smaller than an importance left out; given lists of different
    length it raises [ValueError] and shows nothing. *)
Theorem feature_importance_top sort_values (Hs : sort_contract sort_values)
    (features : list string) (importance : list Q) :
  (length features = length importance →
   ∃ bars omitted,
     create_feature_importance_chart sort_values features importance
       = ([], Done bars)
     ∧ length bars = min 15 (length features)
     ∧ omitted ++ bars ≡ₚ zip features importance
     ∧ StronglySorted (in_order snd true) (omitted ++ bars))
  ∧ (length features ≠ length importance →
     create_feature_importance_chart sort_values features importance
       = ([], Raised (Exception "ValueError"
                        "All arrays must be of the same length"))).
Proof.
  unfold create_feature_importance_chart. split; intros Hlen.
  - rewrite decide_True by done.
    set (sorted_frame := sort_values _ snd true (zip features importance)).
    exists (tail_n 15 sorted_frame),
           (take (length sorted_frame - 15) sorted_frame).
    split; [done|]. split.
    + rewrite length_tail_n. unfold sorted_frame.
      rewrite (sort_permutes _ Hs), length_zip. lia.
    + unfold tail_n. rewrite take_drop. split.
      * apply (sort_permutes _ Hs).
      * apply (sort_orders _ Hs).
  - by rewrite decide_False.
Qed.

(** Three features with their importances, and one importance short. *)
Lemma feature_importance_top_witness :
  sort_contract insertion_sorter
  ∧ create_feature_importance_chart insertion_sorter
      ["offices"; "accounts"; "region"] [2 # 10; 7 # 10; 1 # 10]
    = ([], Done [("region", 1 # 10); ("offices", 2 # 10); ("accounts", 7 # 10)])
  ∧ create_feature_importance_chart insertion_sorter
      ["offices"; "accounts"; "region"] [2 # 10; 7 # 10]
    = ([], Raised (Exception "ValueError"
                     "All arrays must be of the same length")).
Proof.
  split; [exact insertion_sorter_contract|].
  split; [by vm_compute|].
  apply (proj2 (feature_importance_top insertion_sorter
                  insertion_sorter_contract
                  ["offices"; "accounts"; "region"] [2 # 10; 7 # 10])).
  simpl. lia.
Defined.

(** ** Degenerate and extreme correlations *)

Lemma rsum_constant (a : R) (x : list R) :
  Forall (λ v, v = a) x → rsum x = (INR (length x) * a)%R.
Proof.
  induction 1 as [|v x -> _ IH]; [simpl; lra|].
  change (rsum (a :: x)) with (a + rsum x)%R.
  change (length (a :: x)) with (S (length x)).
  rewrite S_INR, IH. lra.
Qed.

Lemma cross_sum_constant (a n : R) (x y : list R) :
  Forall (λ v, v = a) x →
  rsum (zip_with (λ p q, (p - a) * (q - n))%R x y) = 0%R.
Proof.
  intros Hall. revert y.
  induction Hall as [|v x -> _ IH]; intros [|b y]; simpl; try done.
  rewrite IH. lra.
Qed.

Lemma co_deviation_constant (x y : list R) :
  (∀ a b, a ∈ x → b ∈ x → a = b) → co_deviation x y = 0%R.
Proof.
  intros Hconst. unfold co_deviation.
  destruct x as [|a x]; [done|].
  assert (Hall : Forall (λ v, v = a) (a :: x)).
  { apply Forall_forall. intros v Hv. apply Hconst; [done|left]. }
  assert (Hmean : rmean (a :: x) = a).
  { unfold rmean. rewrite (rsum_constant a) by done.
    field. apply not_0_INR. simpl. lia. }
  rewrite Hmean. by apply cross_sum_constant.
Qed.

Lemma pearson_constant (x y : list R) :
  (∀ a b, a ∈ x → b ∈ x → a = b) →
  pearson x y = None ∧ pearson y x = None.
Proof.
  intros Hconst.
  assert (H : pearson x y = None).
  { unfold pearson. rewrite (co_deviation_constant x x Hconst).
    rewrite Rmult_0_l, sqrt_0. by destruct (Req_dec_T 0 0). }
  split; [done|]. by rewrite pearson_comm.
Qed.

(** X15. A column that takes a single value makes its whole row and
    column of the correlation matrix nan, its diagonal entry included; in
    particular every entry is nan for a table of one row or none. *)
Theorem corr_constant_column_nan (df : DataFrame) (columns : list (row → Q))
    (i : nat) (ci : row → Q) :
  columns !! i = Some ci →
  (∀ r1 r2, r1 ∈ df → r2 ∈ df → (ci r1 == ci r2)%Q) →
  ∀ j, (j < length columns)%nat →
    entry (create_correlation_heatmap df columns) i j = Some None
    ∧ entry (create_correlation_heatmap df columns) j i = Some None.
Proof.
  intros Hi Hconst j Hj. unfold create_correlation_heatmap.
  destruct (lookup_lt_is_Some_2 columns j Hj) as [cj Hcj].
  rewrite !entry_corr, Hi, Hcj. simpl.
  assert (Hc : ∀ a b, a ∈ column ci df → b ∈ column ci df → a = b).
  { unfold column. intros a b (r1 & -> & H1)%list_elem_of_fmap
      (r2 & -> & H2)%list_elem_of_fmap.
    apply Qeq_eqR. by apply Hconst. }
  destruct (pearson_constant (column ci df) (column cj df) Hc) as [-> ->].
  done.
Qed.

(** A table of one row: the entry for offices and deposits is nan. *)
Lemma corr_constant_column_nan_witness :
  entry (create_correlation_heatmap (take 1 example_table) numerical_features)
    0 2 = Some None
  ∧ entry (create_correlation_heatmap (take 1 example_table) numerical_features)
      2 0 = Some None.
Proof.
  apply (corr_constant_column_nan (take 1 example_table) numerical_features
           0 no_of_offices eq_refl).
  - simpl. intros r1 r2 H1 H2.
    apply list_elem_of_singleton in H1, H2. by subst.
  - simpl. lia.
Defined.

Lemma cross_sum_nonneg (m : R) (x : list R) :
  (0 <= rsum (zip_with (λ a b, (a - m) * (b - m))%R x x))%R.
Proof.
  induction x as [|a x IH]; simpl; [lra|].
  pose proof (Rle_0_sqr (a - m)) as Hsq. unfold Rsqr in Hsq. lra.
Qed.

(** Cauchy-Schwarz for sums of products of deviations. *)
Lemma cross_sum_cauchy_schwarz (m n : R) (x y : list R) :
  (rsum (zip_with (λ a b, (a - m) * (b - n)) x y)
   * rsum (zip_with (λ a b, (a - m) * (b - n)) x y)
   <= rsum (zip_with (λ a b, (a - m) * (b - m)) x x)
      * rsum (zip_with (λ a b, (a - n) * (b - n)) y y))%R.
Proof.
  revert y. induction x as [|a x IH]; intros [|b y]; simpl.
  - lra.
  - pose proof (cross_sum_nonneg n (b :: y)) as H. simpl in H. lra.
  - pose proof (cross_sum_nonneg m (a :: x)) as H. simpl in H. lra.
  - specialize (IH y).
    pose proof (cross_sum_nonneg m x) as HA.
    pose proof (cross_sum_nonneg n y) as HB.
    set (S := rsum (zip_with (λ a0 b0, (a0 - m) * (b0 - n))%R x y)) in *.
    set (A := rsum (zip_with (λ a0 b0, (a0 - m) * (b0 - m))%R x x)) in *.
    set (B := rsum (zip_with (λ a0 b0, (a0 - n) * (b0 - n))%R y y)) in *.
    set (u := (a - m)%R). set (v := (b - n)%R).
    assert (HX : (0 <= u * u * B + A * (v * v))%R) by nra.
    assert (HXY : ((2 * (u * v * S)) * (2 * (u * v * S))
                   <= (u * u * B + A * (v * v)) * (u * u * B + A * (v * v)))%R).
    { pose proof (Rle_0_sqr (u * u * B - A * (v * v))) as Hsq.
      unfold Rsqr in Hsq.
      assert (Huv : (0 <= (u * v) * (u * v))%R)
        by (pose proof (Rle_0_sqr (u * v)) as H; unfold Rsqr in H; lra).
      assert (Hprod : ((u * v) * (u * v) * (S * S)
                       <= (u * v) * (u * v) * (A * B))%R)
        by (apply Rmult_le_compat_l; lra).
      nra. }
    assert (H2 : (2 * (u * v * S) <= u * u * B + A * (v * v))%R).
    { destruct (Rle_lt_dec (2 * (u * v * S)) (u * u * B + A * (v * v)))
        as [|Hlt]; [done|]. nra. }
    nra.
Qed.

Lemma pearson_bounded (x y : list R) (r : R) :
  pearson x y = Some r → (-1 <= r <= 1)%R.
Proof.
  unfold pearson.
  destruct (Req_dec_T _ 0) as [|Hs]; [done|]. intros [= <-].
  pose proof (cross_sum_cauchy_schwarz (rmean x) (rmean y) x y) as Hcs.
  fold (co_deviation x y) in Hcs. fold (co_deviation x x) in Hcs.
  fold (co_deviation y y) in Hcs.
  pose proof (co_deviation_self_nonneg x) as Hx.
  pose proof (co_deviation_self_nonneg y) as Hy.
  set (D := (co_deviation x x * co_deviation y y)%R) in *.
  assert (HD : (0 <= D)%R) by (unfold D; nra).
  pose proof (sqrt_pos D) as Hpos.
  pose proof (sqrt_sqrt D HD) as Hsq.
  set (s := sqrt D) in *. set (c := co_deviation x y) in *.
  assert (Hs' : (0 < s)%R) by lra.
  assert (Hc : (- s <= c <= s)%R) by nra.
  split.
  - apply Rmult_le_reg_r with s; [done|].
    replace (c / s * s)%R with c by (by field). lra.
  - apply Rmult_le_reg_r with s; [done|].
    replace (c / s * s)%R with c by (by field). lra.
Qed.

(** X16. Every coefficient of the correlation matrix that is a number
    lies between -1 and 1. *)
Theorem corr_entries_bounded (df : DataFrame) (columns : list (row → Q))
    (i j : nat) (r : R) :
  entry (create_correlation_heatmap df columns) i j = Some (Some r) →
  (-1 <= r <= 1)%R.
Proof.
  unfold create_correlation_heatmap. rewrite entry_corr.
  destruct (columns !! i) as [ci|]; simpl; [|done].
  destruct (columns !! j) as [cj|]; simpl; [|done].
  intros [= H]. by apply pearson_bounded in H.
Qed.

(** The offices-accounts entry of the example. *)
Lemma corr_entries_bounded_witness :
  ∃ r, entry (create_correlation_heatmap example_table numerical_features) 0 1
       = Some (Some r)
    ∧ (-1 <= r <= 1)%R.
Proof.
  assert (H : ∃ r, entry (create_correlation_heatmap example_table
                            numerical_features) 0 1 = Some (Some r)).
  { unfold create_correlation_heatmap. rewrite entry_corr. simpl.
    unfold pearson.
    destruct (Req_dec_T _ 0) as [Hz|_]; [|by eexists].
    exfalso. apply sqrt_eq_0 in Hz.
    - revert Hz. unfold co_deviation, rmean, column, rsum, Q2R. simpl. lra.
    - unfold co_deviation, rmean, column, rsum, Q2R. simpl. lra. }
  destruct H as [r Hr]. exists r. split; [exact Hr|].
  exact (corr_entries_bounded example_table numerical_features 0 1 r Hr).
Defined.

(** ** Regional tables of the Geographic page *)

Lemma col_sum_pos col (l : DataFrame) :
  l ≠ [] → Forall (λ r, (0 < col r)%Q) l → (0 < col_sum col l)%Q.
Proof.
  intros Hne Hpos. destruct l as [|r l]; [done|]. clear Hne.
  apply Forall_cons in Hpos as [Hr Hl]. simpl.
  assert (Hrest : (0 <= col_sum col l)%Q).
  { induction Hl as [|r' l Hr' Hl IH]; simpl; [apply Qle_refl|].
    apply Qlt_le_weak in Hr'.
    rewrite <- (Qplus_0_l 0). by apply Qplus_le_compat. }
  rewrite <- (Qplus_0_r 0). by apply Qplus_lt_le_compat.
Qed.

Lemma ndiv_pos_finite a b :
  (0 < b)%Q → is_finite (round2 (ndiv (Fin a) (Fin b))) = true.
Proof.
  intros Hb. simpl.
  destruct (Qeq_bool b 0) eqn:Hz; [|done].
  apply Qeq_bool_iff in Hz. rewrite Hz in Hb. by apply Qlt_irrefl in Hb.
Qed.

(** X17. When every row has at least some offices and some accounts,
    the three ratios of the regional comparison table are ordinary numbers
    for every region. *)
Theorem efficiency_df_finite (comparison_df : DataFrame) :
  Forall (λ r, (0 < no_of_offices r)%Q ∧ (0 < no_of_accounts r)%Q)
    comparison_df →
  Forall (λ e, is_finite (deposit_per_office e) = true
               ∧ is_finite (deposit_per_account e) = true
               ∧ is_finite (accounts_per_office e) = true)
    (efficiency_df comparison_df)
  ∧ eff_region <$> efficiency_df comparison_df
    = sorted (unique (map region comparison_df)).
Proof.
  intros Hpos. unfold efficiency_df. split.
  - apply Forall_fmap, Forall_forall. intros [k g] Hg. simpl.
    apply groupby_groups in Hg as (Hne & Hg & _).
    assert (Hsub : Forall (λ r, (0 < no_of_offices r)%Q
                                ∧ (0 < no_of_accounts r)%Q) g).
    { rewrite Hg. apply Forall_forall.
      intros r [_ Hr]%list_elem_of_filter.
      rewrite Forall_forall in Hpos. by apply Hpos. }
    assert (Ho : (0 < col_sum no_of_offices g)%Q).
    { apply col_sum_pos; [done|]. eapply Forall_impl; [exact Hsub|].
      simpl. tauto. }
    assert (Ha : (0 < col_sum no_of_accounts g)%Q).
    { apply col_sum_pos; [done|]. eapply Forall_impl; [exact Hsub|].
      simpl. tauto. }
    split; [by apply ndiv_pos_finite|].
    split; by apply ndiv_pos_finite.
  - rewrite <- list_fmap_compose, <- groupby_keys.
    generalize (groupby region comparison_df). intros l.
    induction l as [|a l IH]; simpl; [done|by f_equal].
Qed.

(** The example has offices and accounts in every row. *)
Lemma efficiency_df_finite_witness :
  Forall (λ r, (0 < no_of_offices r)%Q ∧ (0 < no_of_accounts r)%Q)
    example_table
  ∧ Forall (λ e, is_finite (deposit_per_office e) = true
                 ∧ is_finite (deposit_per_account e) = true
                 ∧ is_finite (accounts_per_office e) = true)
      (efficiency_df example_table).
Proof.
  assert (H : Forall (λ r, (0 < no_of_offices r)%Q ∧ (0 < no_of_accounts r)%Q)
                example_table).
  { unfold example_table. repeat constructor. }
  split; [exact H|]. exact (proj1 (efficiency_df_finite example_table H)).
Defined.

(** X18. The per-row efficiency metric has one ordinary number per row:
    the plain ratio where the count in the denominator is not zero, and
    the numerator itself where it is. *)
Theorem metric_guarded (m : efficiency_metric) (df : DataFrame) (i : nat)
    (r : row) :
  df !! i = Some r →
  let numerator :=
    match m with AccountsPerOffice => no_of_accounts r | _ => deposit_amount r end in
  let denominator :=
    match m with DepositPerAccount => no_of_accounts r | _ => no_of_offices r end in
  length (metric m df) = length df
  ∧ ∃ q, metric m df !! i = Some (Fin q)
      ∧ (¬ (denominator == 0)%Q → (q == numerator / denominator)%Q)
      ∧ ((denominator == 0)%Q → (q == numerator)%Q).
Proof.
  intros Hi numerator denominator.
  assert (Hkey : ∀ n d,
            ∃ q, ndiv (Fin n) (Fin (replace_0_1 d)) = Fin q
              ∧ (¬ (d == 0)%Q → (q == n / d)%Q) ∧ ((d == 0)%Q → (q == n)%Q)).
  { intros n d. simpl. rewrite replace_0_1_nonzero.
    eexists. split; [done|]. unfold replace_0_1.
    destruct (Qeq_bool d 0) eqn:Hd.
    - apply Qeq_bool_iff in Hd. split; [done|]. intros _. by field.
    - apply Qeq_bool_neq in Hd. split; [reflexivity|done]. }
  destruct m; unfold metric; (split; [apply length_fmap|]);
    change (map ?f df) with (f <$> df); rewrite list_lookup_fmap, Hi; simpl;
    [destruct (Hkey (no_of_accounts r) (no_of_offices r)) as (q & Hq & H1 & H2)
    |destruct (Hkey (deposit_amount r) (no_of_offices r)) as (q & Hq & H1 & H2)
    |destruct (Hkey (deposit_amount r) (no_of_accounts r)) as (q & Hq & H1 & H2)];
    exists q; simpl in Hq; rewrite Hq; done.
Qed.

(** A branch without accounts: its deposit-per-account entry is the
    deposit amount. *)
Lemma metric_guarded_witness :
  ∃ q, metric DepositPerAccount region_without_accounts !! 0 = Some (Fin q)
    ∧ (q == 100)%Q.
Proof.
  destruct (metric_guarded DepositPerAccount region_without_accounts 0
              (mkRow 0 "Bihar" "Patna" "East" "Rural" 1 0 100) eq_refl)
    as (_ & q & Hq & _ & Hzero).
  exists q. split; [exact Hq|]. apply Hzero. reflexivity.
Defined.

Lemma length_by_keys (key : row → string) (df : DataFrame) :
  sum_list (map (λ g, length g.2) (groupby key df)) = length df.
Proof.
  unfold groupby. rewrite <- list_fmap_compose.
  rewrite <- (length_fmap key df).
  change (key <$> df) with (map key df).
  rewrite <- (count_by_keys (sorted (unique (map key df))) (map key df)).
  - f_equal. apply list_fmap_ext. intros _ k _. simpl.
    symmetry. apply length_filter_fmap.
  - apply (sorted_unique_spec (map key df)).
  - intros x Hx. by apply (sorted_unique_spec (map key df)).
Qed.

(** X19. The regional table has one row per region of the table, ordered
    by total deposits from the largest down; its record counts add up to
    the number of rows, each being at least one, so that every regional
    mean is an ordinary number. *)
Theorem regional_data_rows sort_values (Hs : sort_contract sort_values)
    (df : DataFrame) :
  rd_region <$> regional_data sort_values df ≡ₚ sorted (unique (map region df))
  ∧ StronglySorted (λ a b, (rd_total_deposits b <= rd_total_deposits a)%Q)
      (regional_data sort_values df)
  ∧ sum_list (rd_records <$> regional_data sort_values df) = length df
  ∧ Forall (λ row, (1 ≤ rd_records row)%nat
                   ∧ is_finite (rd_avg_deposits row) = true)
      (regional_data sort_values df).
Proof.
  unfold regional_data.
  set (base := map _ (groupby region df)).
  pose proof (sort_permutes _ Hs _ rd_total_deposits false base) as Hperm.
  split; [|split; [|split]].
  - rewrite Hperm. unfold base. rewrite <- list_fmap_compose, <- groupby_keys.
    generalize (groupby region df). intros l.
    induction l as [|a l IH]; simpl; [done|by constructor].
  - apply (sort_orders _ Hs _ rd_total_deposits false base).
  - rewrite Hperm. unfold base. rewrite <- list_fmap_compose.
    apply length_by_keys.
  - rewrite Hperm. unfold base. apply Forall_fmap, Forall_forall.
    intros [k g] Hg. simpl. apply groupby_groups in Hg as (Hne & _ & _).
    unfold col_mean. destruct g; [done|]. simpl. split; [lia|done].
Qed.

(** The regional table of the example under insertion sort. *)
Lemma regional_data_rows_witness :
  sort_contract insertion_sorter
  ∧ rd_region <$> regional_data insertion_sorter example_table
    = ["West"; "East"]
  ∧ sum_list (rd_records <$> regional_data insertion_sorter example_table)
    = length example_table.
Proof.
  split; [exact insertion_sorter_contract|].
  split; [by vm_compute|].
  exact (proj1 (proj2 (proj2
    (regional_data_rows insertion_sorter insertion_sorter_contract
       example_table)))).
Defined.

(** ** Min-max normalisation of the state heatmap *)

Lemma foldr_Qmin_constant x l :
  Forall (λ v, (v == x)%Q) l → (foldr Qmin x l == x)%Q.
Proof.
  induction 1 as [|y l Hy _ IH]; simpl; [reflexivity|].
  rewrite Q.min_l; [done|]. rewrite Hy, IH. apply Qle_refl.
Qed.

Lemma foldr_Qmax_constant x l :
  Forall (λ v, (v == x)%Q) l → (foldr Qmax x l == x)%Q.
Proof.
  induction 1 as [|y l Hy _ IH]; simpl; [reflexivity|].
  rewrite Q.max_l; [done|]. rewrite Hy, IH. apply Qle_refl.
Qed.

(** X20. Min-max normalisation keeps one entry per value.  When the
    column's largest value exceeds its smallest, every entry is a number
    between 0 and 1, 0 at the smallest value and 1 at the largest; when
    all values of a non-empty column coincide, every entry is nan. *)
Theorem normalized_data_range (col : list Q) :
  length (normalized_data col) = length col
  ∧ (∀ lo hi, series_min col = Fin lo → series_max col = Fin hi →
       (lo < hi)%Q →
       ∀ i v, col !! i = Some v →
         ∃ q, normalized_data col !! i = Some (Fin q)
           ∧ (0 <= q <= 1)%Q
           ∧ ((v == lo)%Q → (q == 0)%Q)
           ∧ ((v == hi)%Q → (q == 1)%Q))
  ∧ ((∀ a b, a ∈ col → b ∈ col → (a == b)%Q) →
     Forall (λ t, t = NaN) (normalized_data col)).
Proof.
  unfold normalized_data. split; [apply length_fmap|]. split.
  - intros lo hi Hlo Hhi Hlt i v Hi.
    assert (Hv : v ∈ col) by (by eapply list_elem_of_lookup_2).
    assert (Hne : col ≠ []) by (intros ->; by apply elem_of_nil in Hv).
    destruct (series_min_lower col Hne) as (lo' & Hlo' & Hlow).
    destruct (series_max_upper col Hne) as (hi' & Hhi' & Hupp).
    rewrite Hlo in Hlo'. rewrite Hhi in Hhi'.
    injection Hlo' as <-. injection Hhi' as <-.
    rewrite Forall_forall in Hlow, Hupp.
    specialize (Hlow v Hv). specialize (Hupp v Hv).
    change (map ?f col) with (f <$> col).
    rewrite list_lookup_fmap, Hi, Hlo, Hhi. simpl.
    assert (Hpos : (0 < hi + - lo)%Q).
    { rewrite <- (Qplus_opp_r lo). apply Qplus_lt_l. exact Hlt. }
    destruct (Qeq_bool (hi + - lo) 0) eqn:Hz.
    { apply Qeq_bool_iff in Hz. rewrite Hz in Hpos.
      by apply Qlt_irrefl in Hpos. }
    eexists. split; [reflexivity|]. split; [split|split].
    + apply Qle_shift_div_l; [done|]. rewrite Qmult_0_l.
      rewrite <- (Qplus_opp_r lo). by apply Qplus_le_compat; [|apply Qle_refl].
    + apply Qle_shift_div_r; [done|]. rewrite Qmult_1_l.
      by apply Qplus_le_compat; [|apply Qle_refl].
    + intros Heq. rewrite Heq. field.
      intros H0. rewrite H0 in Hpos. by apply Qlt_irrefl in Hpos.
    + intros Heq. rewrite Heq. field.
      intros H0. rewrite H0 in Hpos. by apply Qlt_irrefl in Hpos.
  - intros Hconst. destruct col as [|x l]; [constructor|].
    assert (Hall : Forall (λ v, (v == x)%Q) l).
    { apply Forall_forall. intros v Hv. apply Hconst; [by right|left]. }
    pose proof (foldr_Qmin_constant x l Hall) as Hmin.
    pose proof (foldr_Qmax_constant x l Hall) as Hmax.
    apply Forall_fmap, Forall_forall. intros v Hv. simpl.
    assert (Hvx : (v == x)%Q) by (apply Hconst; [done|left]).
    assert (Hden : (foldr Qmax x l + - foldr Qmin x l == 0)%Q)
      by (rewrite Hmin, Hmax; ring).
    assert (Hnum : (v + - foldr Qmin x l == 0)%Q)
      by (rewrite Hmin, Hvx; ring).
    apply Qeq_bool_iff in Hden. rewrite Hden.
    unfold signed_inf. apply Qeq_alt in Hnum. by rewrite Hnum.
Qed.

(** The deposit totals of the example's three states, normalised. *)
Lemma normalized_data_range_witness :
  ∃ q, normalized_data [1000%Q; 9000%Q; 2000%Q] !! 1 = Some (Fin q)
    ∧ (q == 1)%Q.
Proof.
  destruct (proj1 (proj2 (normalized_data_range [1000%Q; 9000%Q; 2000%Q]))
              1000%Q 9000%Q eq_refl eq_refl eq_refl 1 9000%Q eq_refl)
    as (q & Hq & _ & _ & Hhi).
  exists q. split; [exact Hq|]. apply Hhi. reflexivity.
Defined.

(** A single state, as when the table holds one state only. *)
Lemma normalized_data_single_state :
  normalized_data [1000%Q] = [NaN].
Proof. reflexivity. Qed.

(** ** The input form of the Predictions page *)

Lemma col_sum_bounds col (df : DataFrame) (lo hi : Q) :
  Forall (λ r, (lo <= col r <= hi)%Q) df →
  (inject_Z (Z.of_nat (length df)) * lo <= col_sum col df)%Q
  ∧ (col_sum col df <= inject_Z (Z.of_nat (length df)) * hi)%Q.
Proof.
  induction 1 as [|r df [Hlo Hhi] _ [IH1 IH2]].
  - simpl. split; rewrite Qmult_0_l; apply Qle_refl.
  - change (col_sum col (r :: df)) with (col r + col_sum col df)%Q.
    change (length (r :: df)) with (S (length df)).
    rewrite Nat2Z.inj_succ, <- Z.add_1_l, inject_Z_plus.
    split.
    + assert (Heq : ((inject_Z 1 + inject_Z (Z.of_nat (length df))) * lo
                     == lo + inject_Z (Z.of_nat (length df)) * lo)%Q) by ring.
      rewrite Heq. by apply Qplus_le_compat.
    + assert (Heq : ((inject_Z 1 + inject_Z (Z.of_nat (length df))) * hi
                     == hi + inject_Z (Z.of_nat (length df)) * hi)%Q) by ring.
      rewrite Heq. by apply Qplus_le_compat.
Qed.

Lemma count_input_in_bounds col (df : DataFrame) :
  df ≠ [] → Forall (λ r, (1 <= col r)%Q) df →
  ∃ box, count_input col df = ([], Done box)
    ∧ (min_value box = 1)%Z
    ∧ (min_value box <= value box <= max_value box)%Z.
Proof.
  intros Hne Hpos.
  assert (Hne' : map col df ≠ []) by (by destruct df).
  destruct (series_max_upper (map col df) Hne') as (hi & Hhi & Hupp).
  assert (Hrange : Forall (λ r, (1 <= col r <= hi)%Q) df).
  { apply Forall_forall. intros r Hr. split.
    - rewrite Forall_forall in Hpos. by apply Hpos.
    - rewrite Forall_forall in Hupp. apply Hupp.
      by apply list_elem_of_fmap_2. }
  destruct (col_sum_bounds col df 1 hi Hrange) as [Hs1 Hs2].
  destruct df as [|r df]; [done|].
  set (n := inject_Z (Z.of_nat (length (r :: df)))) in *.
  assert (Hn : (0 < n)%Q).
  { unfold n. rewrite <- (Zlt_Qlt 0). simpl. lia. }
  set (mean := (col_sum col (r :: df) / n)%Q).
  assert (Hmean : col_mean col (r :: df) = Fin mean) by reflexivity.
  assert (Hm1 : (1 <= mean)%Q).
  { apply Qle_shift_div_l; [done|]. by rewrite Qmult_comm. }
  assert (Hm2 : (mean <= hi)%Q).
  { apply Qle_shift_div_r; [done|]. by rewrite Qmult_comm. }
  assert (Hhi0 : Qle_bool 0 hi = true).
  { apply Qle_bool_iff. apply Qle_trans with mean; [|done].
    by apply Qle_trans with 1%Q. }
  assert (Hmean0 : Qle_bool 0 mean = true).
  { apply Qle_bool_iff. by apply Qle_trans with 1%Q. }
  unfold count_input. rewrite Hhi, Hmean. unfold py_int.
  rewrite Hhi0, Hmean0.
  eexists. split; [reflexivity|].
  cbn [min_value max_value value]. split; [done|]. split.
  - change 1%Z with (Qfloor 1). by apply Qfloor_resp_le.
  - by apply Qfloor_resp_le.
Qed.

(** X21. If every row has at least one office and one account, both
    input boxes of the prediction form get a default that lies between
    their minimum, 1, and their maximum; on a table without rows the
    form cannot be built: converting the nan maximum raises ValueError. *)
Theorem prediction_inputs_defaults (df : DataFrame) :
  (df ≠ [] →
   Forall (λ r, (1 <= no_of_offices r)%Q ∧ (1 <= no_of_accounts r)%Q) df →
   ∃ offices accounts,
     prediction_inputs df = ([], Done (offices, accounts))
     ∧ (min_value offices = 1)%Z
     ∧ (min_value offices <= value offices <= max_value offices)%Z
     ∧ (min_value accounts = 1)%Z
     ∧ (min_value accounts <= value accounts <= max_value accounts)%Z)
  ∧ prediction_inputs [] =
      ([], Raised (Exception "ValueError"
                     "cannot convert float NaN to integer")).
Proof.
  split; [|done]. intros Hne Hpos.
  destruct (count_input_in_bounds no_of_offices df Hne)
    as (o & Ho & Ho1 & Ho2).
  { eapply Forall_impl; [exact Hpos|]. simpl. tauto. }
  destruct (count_input_in_bounds no_of_accounts df Hne)
    as (a & Ha & Ha1 & Ha2).
  { eapply Forall_impl; [exact Hpos|]. simpl. tauto. }
  exists o, a. unfold prediction_inputs. rewrite Ho, Ha. done.
Qed.

(** The form built from the example table. *)
Lemma prediction_inputs_defaults_witness :
  example_table ≠ []
  ∧ Forall (λ r, (1 <= no_of_offices r)%Q ∧ (1 <= no_of_accounts r)%Q)
      example_table
  ∧ prediction_inputs example_table
    = ([], Done (mkNumberInput 1 5 3, mkNumberInput 1 100 55)).
Proof.
  assert (H1 : example_table ≠ []) by discriminate.
  assert (H2 : Forall (λ r, (1 <= no_of_offices r)%Q
                            ∧ (1 <= no_of_accounts r)%Q) example_table).
  { unfold example_table. repeat constructor; simpl; unfold Qle; simpl; lia. }
  split; [exact H1|]. split; [exact H2|].
  destruct (proj1 (prediction_inputs_defaults example_table) H1 H2)
    as (o & a & Heq & _).
  by vm_compute.
Defined.

(** ** More on the estimates *)





(** ** The overview of the Models page *)

Lemma idxmax_from_spec (l : list Q) : ∀ best_i best i,
  (idxmax_from best_i best i l = best_i ∧ Forall (λ x, (x <= best)%Q) l)
  ∨ ∃ j x, idxmax_from best_i best i l = (i + j)%nat
         ∧ l !! j = Some x ∧ (best < x)%Q
         ∧ Forall (λ y, (y <= x)%Q) l
         ∧ ∀ j' y, (j' < j)%nat → l !! j' = Some y → (y < x)%Q.
Proof.
  induction l as [|x l IH]; intros best_i best i; simpl.
  { left. by split. }
  destruct (Qlt_le_dec best x) as [Hlt|Hle].
  - right. destruct (IH i x (S i)) as [[Hk Hall]|(j & x2 & Hk & Hj & Hx & Hall & Hbefore)].
    + exists 0%nat, x. rewrite Hk. split; [lia|]. split; [done|].
      split; [done|]. split; [constructor; [apply Qle_refl|done]|].
      intros j' y Hj'. lia.
    + exists (S j), x2. rewrite Hk. split; [lia|]. split; [done|].
      split; [by apply Qlt_trans with x|].
      split; [constructor; [by apply Qlt_le_weak|done]|].
      intros [|j'] y Hj' Hy; simpl in Hy.
      * by injection Hy as <-.
      * apply (Hbefore j' y); [lia|done].
  - destruct (IH best_i best (S i)) as [[Hk Hall]|(j & x2 & Hk & Hj & Hx & Hall & Hbefore)].
    + left. split; [done|]. by constructor.
    + right. exists (S j), x2. rewrite Hk. split; [lia|]. split; [done|].
      split; [done|].
      assert (Hxx2 : (x < x2)%Q) by (by apply Qle_lt_trans with best).
      split; [constructor; [by apply Qlt_le_weak|done]|].
      intros [|j'] y Hj' Hy; simpl in Hy.
      * by injection Hy as <-.
      * apply (Hbefore j' y); [lia|done].
Qed.

(** The first largest value of a non-empty series. *)
Lemma idxmax_first_largest (x0 : Q) (l : list Q) :
  ∃ k x, idxmax (x0 :: l) = ([], Done k)
    ∧ (x0 :: l) !! k = Some x
    ∧ Forall (λ y, (y <= x)%Q) (x0 :: l)
    ∧ ∀ j y, (j < k)%nat → (x0 :: l) !! j = Some y → (y < x)%Q.
Proof.
  simpl.
  destruct (idxmax_from_spec l 0%nat x0 1%nat)
    as [[Hk Hall]|(j & x & Hk & Hj & Hx & Hall & Hbefore)].
  - exists 0%nat, x0. rewrite Hk. split; [done|]. split; [done|].
    split; [constructor; [apply Qle_refl|done]|]. intros j y Hj. lia.
  - exists (S j), x. rewrite Hk. split; [done|]. split; [done|].
    split; [constructor; [by apply Qlt_le_weak|done]|].
    intros [|j'] y Hj' Hy; simpl in Hy.
    + by injection Hy as <-.
    + apply (Hbefore j' y); [lia|done].
Qed.

Lemma foldr_Qmax_attained x l :
  ∃ v, v ∈ x :: l ∧ (foldr Qmax x l == v)%Q.
Proof.
  induction l as [|y l (v & Hv & Heq)]; simpl.
  - exists x. split; [left|reflexivity].
  - destruct (Q.max_dec y (foldr Qmax x l)) as [H|H].
    + exists y. split; [right; left|done].
    + exists v. split; [|by rewrite H].
      apply elem_of_cons in Hv as [->|Hv]; [left|right; by right].
Qed.

(** X24. For a table with at least one model, the overview names as best
    the first row that attains the largest R²: no row has a larger R², every
    earlier row has a smaller one, and the "Best R² Score" metric shows
    that row's R².  On an empty table the overview shows a count of 0 and a
    nan score and then fails with ValueError. *)
Theorem models_overview_best (comparison_df : list comparison_row) :
  (comparison_df ≠ [] →
   ∃ label best score,
     result (models_overview comparison_df) = Done (model_name best)
     ∧ comparison_df !! label = Some best
     ∧ Forall (λ m, (test_r2 m <= test_r2 best)%Q) comparison_df
     ∧ (∀ j m, (j < label)%nat → comparison_df !! j = Some m →
               (test_r2 m < test_r2 best)%Q)
     ∧ StMetric "Best R² Score" (Fin score)
         ∈ effects (models_overview comparison_df)
     ∧ (score == test_r2 best)%Q)
  ∧ models_overview [] =
      ([StMetric "Total Models Trained" (Fin 0); StMetric "Best R² Score" NaN],
       Raised (Exception "ValueError"
                 "attempt to get argmax of an empty sequence")).
Proof.
  split; [|done]. intros Hne.
  destruct comparison_df as [|m0 df]; [done|].
  destruct (idxmax_first_largest (test_r2 m0) (map test_r2 df))
    as (k & x & Hk & Hx & Hall & Hbefore).
  change (test_r2 m0 :: map test_r2 df) with (test_r2 <$> (m0 :: df)) in *.
  rewrite list_lookup_fmap in Hx.
  destruct ((m0 :: df) !! k) as [best|] eqn:Hbest; [|done].
  injection Hx as <-.
  destruct (foldr_Qmax_attained (test_r2 m0) (map test_r2 df))
    as (v & Hv & Hmax).
  destruct (foldr_Qmax_ge (test_r2 m0) (map test_r2 df)) as [Hge0 Hge].
  exists k, best, (foldr Qmax (test_r2 m0) (map test_r2 df)).
  unfold models_overview.
  change (map test_r2 (m0 :: df)) with (test_r2 <$> (m0 :: df)).
  rewrite Hk. cbn [bind emit ret effects result fst snd app].
  rewrite Hbest. cbn [bind emit ret effects result fst snd app].
  split; [done|]. split; [done|]. split.
  { apply Forall_forall. intros m Hm. rewrite Forall_forall in Hall.
    apply Hall. by apply list_elem_of_fmap_2. }
  split.
  { intros j m Hj Hm. apply (Hbefore j (test_r2 m) Hj).
    by rewrite list_lookup_fmap, Hm. }
  split.
  { rewrite !elem_of_cons. right. left. reflexivity. }
  apply Qle_antisym.
  - rewrite Hmax. rewrite Forall_forall in Hall. by apply Hall.
  - assert (Hin : test_r2 best ∈ test_r2 <$> (m0 :: df)).
    { apply list_elem_of_fmap_2. by eapply list_elem_of_lookup_2. }
    change (test_r2 <$> (m0 :: df)) with (test_r2 m0 :: map test_r2 df) in Hin.
    apply elem_of_cons in Hin as [->|Hin]; [done|].
    rewrite Forall_forall in Hge. by apply Hge.
Qed.

(** Two models tie for the best R²: the first of them is named. *)
Lemma models_overview_best_witness :
  result (models_overview
            [mkComparison "ridge" (9 # 10) 5 4 1;
             mkComparison "extra_trees" (99 # 100) 2 1 3;
             mkComparison "forest" (99 # 100) 3 2 2])
  = Done "extra_trees".
Proof.
  set (df := [mkComparison "ridge" (9 # 10) 5 4 1;
              mkComparison "extra_trees" (99 # 100) 2 1 3;
              mkComparison "forest" (99 # 100) 3 2 2]).
  assert (Hne : df ≠ []) by discriminate.
  destruct (proj1 (models_overview_best df) Hne) as (label & best & score & _).
  by vm_compute.
Defined.

(** ** The readiness check *)

Lemma file_loop_true (files : gset string) (l : list (string * string * bool))
    (acc : bool) :
  foldl (λ (all_ok : bool) '((file_path, _, required) : string * string * bool),
           if decide (file_path ∈ files) then all_ok
           else if required then false else all_ok) acc l = true
  ↔ acc = true
    ∧ ∀ path desc, (path, desc, true) ∈ l → path ∈ files.
Proof.
  revert acc. induction l as [|[[p d] req] l IH]; intros acc; simpl.
  { split; [intros ->; split; [done|]; intros ? ? H;
            by apply elem_of_nil in H | by intros [-> _]]. }
  rewrite IH. split.
  - intros [Hacc Hall]. destruct (decide (p ∈ files)) as [Hp|Hp].
    + split; [done|]. intros path desc [[= -> -> _]|H]%elem_of_cons; eauto.
    + destruct req; [done|]. split; [done|].
      intros path desc [[=]|H]%elem_of_cons. eauto.
  - intros [-> Hall]. split.
    + destruct (decide (p ∈ files)) as [Hp|Hp]; [done|].
      destruct req; [|done]. exfalso. apply Hp. eapply Hall. left.
    + intros path desc H. eapply Hall. by right.
Qed.

Lemma app_loop_true (files : gset string) (l : list string) (acc : bool) :
  foldl (λ (all_ok : bool) (file_path : string),
           if decide (file_path ∈ files) then all_ok else false) acc l = true
  ↔ acc = true ∧ ∀ path, path ∈ l → path ∈ files.
Proof.
  revert acc. induction l as [|p l IH]; intros acc; simpl.
  { split; [intros ->; split; [done|]; intros ? H;
            by apply elem_of_nil in H | by intros [-> _]]. }
  rewrite IH. split.
  - intros [Hacc Hall]. destruct (decide (p ∈ files)) as [Hp|Hp]; [|done].
    split; [done|]. intros path [->|H]%elem_of_cons; eauto.
  - intros [-> Hall]. split.
    + rewrite decide_True; [done|]. apply Hall. left.
    + intros path H. apply Hall. by right.
Qed.

(** X25. The readiness check exits with 0 exactly when the interpreter
    passes the version test, each of the five packages imports, each of
    the six required files exists under the project root and each of the
    eleven application files exists under the working directory; in every
    other case it exits with 1.  The two optional files play no part. *)
Theorem main_exit_code (env : environment) :
  (main env = 0%Z ∨ main env = 1%Z)
  ∧ (main env = 0%Z ↔
       check_python_version env = true
       ∧ (∀ package, package ∈ required_packages → package ∈ importable env)
       ∧ (∀ path desc, (path, desc, true) ∈ required_files →
                       path ∈ project_files env)
       ∧ (∀ path, path ∈ app_files → path ∈ cwd_files env)).
Proof.
  unfold main.
  assert (Hdeps : check_dependencies env = true ↔
            ∀ package, package ∈ required_packages → package ∈ importable env).
  { unfold check_dependencies, missing_packages.
    destruct (decide (filter _ required_packages = [])) as [Hnil|Hne].
    - split; [intros _|done]. intros p Hp.
      destruct (decide (p ∈ importable env)) as [|Hno]; [done|].
      assert (p ∈ filter (λ package, package ∉ importable env)
                    required_packages) as Hin
        by (by apply list_elem_of_filter).
      rewrite Hnil in Hin. by apply elem_of_nil in Hin.
    - split; [done|]. intros Hall. exfalso. apply Hne.
      apply elem_of_nil_inv. intros p [Hp1 Hp2]%list_elem_of_filter.
      apply Hp1. by apply Hall. }
  pose proof (file_loop_true (project_files env) required_files true) as Hfiles.
  pose proof (app_loop_true (cwd_files env) app_files true) as Happ.
  fold (check_file_structure env) in Hfiles.
  fold (check_streamlit_app env) in Happ.
  split.
  - destruct (check_python_version env), (check_dependencies env),
      (check_file_structure env), (check_streamlit_app env); simpl; auto.
  - destruct (check_python_version env); simpl.
    + destruct (check_dependencies env); simpl;
        destruct (check_file_structure env); simpl;
        destruct (check_streamlit_app env); simpl;
        split; try done; intros H;
        try (destruct H as (_ & H1 & H2 & H3));
        try (apply Hdeps in H1; done);
        try (assert (false = true) as Hf
               by (apply Hfiles; split; [done|exact H2]); done);
        try (assert (false = true) as Hf
               by (apply Happ; split; [done|exact H3]); done).
      split; [done|]. split; [by apply Hdeps|].
      split; [by apply Hfiles|by apply Happ].
    + split; [done|]. by intros [? _].
Qed.

(** X26. An interpreter whose minor version is below 8 fails the check
    whatever its major version, so a 4.0 would be turned away as too old,
    and the check then exits with 1 however complete the installation. *)
Theorem minor_version_below_8_rejected (env : environment)
    (major minor micro : Z) :
  python_version env = (major, minor, micro) →
  (minor < 8)%Z →
  check_python_version env = false ∧ main env = 1%Z.
Proof.
  intros Hv Hminor. unfold main, check_python_version. rewrite Hv.
  assert ((8 <=? minor)%Z = false) as -> by lia.
  rewrite andb_false_r. done.
Qed.

(** A complete installation, seen from the project root and from the
    application directory. *)
Lemma main_exit_code_witness :
  main (mkEnvironment (3, 11, 4)%Z (list_to_set required_packages)
          (list_to_set (required_files.*1.*1)) (list_to_set app_files))
  = 0%Z.
Proof.
  apply (proj2 (main_exit_code _)). split; [reflexivity|].
  split; [|split].
  - intros package Hp. by apply elem_of_list_to_set.
  - intros path desc Hp. apply elem_of_list_to_set.
    apply (list_elem_of_fmap_2 fst) in Hp.
    apply (list_elem_of_fmap_2 fst) in Hp. exact Hp.
  - intros path Hp. by apply elem_of_list_to_set.
Defined.

(** The same installation under a Python 4.0. *)
Lemma minor_version_below_8_rejected_witness :
  main (mkEnvironment (4, 0, 0)%Z (list_to_set required_packages)
          (list_to_set (required_files.*1.*1)) (list_to_set app_files))
  = 1%Z.
Proof.
  apply (minor_version_below_8_rejected _ 4 0 0); [reflexivity|lia].
Defined.

(** The check asks for [model_comparison.csv]; the file the Models page
    loads goes unnoticed, present or not. *)
Example check_ignores_loaded_comparison (env : environment) :
  check_file_structure
    (mkEnvironment (python_version env) (importable env)
       (project_files env ∪ {[model_comparison_path]}) (cwd_files env))
  = check_file_structure
      (mkEnvironment (python_version env) (importable env)
         (project_files env ∖ {[model_comparison_path]}) (cwd_files env)).
Proof.
  apply eq_true_iff_eq.
  unfold check_file_structure. rewrite !file_loop_true. simpl.
  split; intros [_ H]; (split; [done|]); intros path desc Hp;
    specialize (H path desc Hp);
    unfold required_files in Hp;
    rewrite !elem_of_cons, elem_of_nil in Hp;
    destruct Hp as [Hp|[Hp|[Hp|[Hp|[Hp|[Hp|[Hp|[Hp|[]]]]]]]]];
    try discriminate; injection Hp as -> _;
    unfold model_comparison_path in *;
    rewrite ?elem_of_union, ?elem_of_difference, ?elem_of_singleton in *;
    intuition discriminate.
Qed.
